(** * An OAuth 2.0 authorization server with PKCE (main.go)

    The development has three layers.
    - The library functions that [verifyPKCE] calls, [sha256.Sum256] and
      [base64.RawURLEncoding.EncodeToString], as executable functions on
      lists of bytes.
    - The handlers of [main.go] ([handleAuthorize], [handleToken],
      [handleUserInfo], [handleCallback]) as functions from a request and
      the server state to the new state and the answer: what a handler
      computes when no other request is served at the same time.
    - The same handlers as goroutines that step through their accesses to
      the shared maps under the mutex [mu], and the server as an
      interleaving of such goroutines.

    Modelling conventions.
    - A Go [string] is a sequence of bytes: [String.string].
    - [time.Time] is an instant counted in nanoseconds ([Z]);
      [time.Duration] is a number of nanoseconds; [t.Add d] is [t + d]
      and [t.After u] is [u < t].
    - [map[string]T] is [gmap string T]; indexing with the comma-ok form is
      [m !! k], [delete(m, k)] is [delete k m].
    - [uuid.New().String()] and [time.Now()] read the environment: their
      results are arguments of the handler, or of the step, that calls
      them.  Nothing is assumed about the values read: two calls may return
      the same identifier, and the clock need not advance.
    - What a handler writes to its [http.ResponseWriter] is recorded as a
      [Response] value, one constructor per way the handlers answer; for a
      redirect this is the [Location] header that [http.Redirect] sets. *)

From stdpp Require Import gmap strings list.

Local Open Scope Z_scope.
Local Open Scope string_scope.

(** ** Bytes and 32-bit words *)

(** [[]byte(s)] *)
Definition bytes_of_string (s : string) : list Z :=
  (λ a, Z.of_N (Ascii.N_of_ascii a)) <$> String.list_ascii_of_string s.

(** ** crypto/sha256

    [sha256.Sum256] of the Go standard library, after its portable block
    function [blockGeneric] and the padding of [checkSum].  A [uint32] is a
    [Z] reduced modulo [2^32] after every addition. *)
Module sha256.

Definition wrap32 (x : Z) : Z := x mod 2 ^ 32.

Definition add32 (x y : Z) : Z := wrap32 (x + y).

(** [^x] on a [uint32] *)
Definition not32 (x : Z) : Z := Z.lxor x 4294967295.

(** [bits.RotateLeft32(x, -k)]: rotation to the right by [k] *)
Definition rotr (k x : Z) : Z :=
  Z.lor (Z.shiftr x k) (wrap32 (Z.shiftl x (32 - k))).

Definition init : list Z :=
  [ 1779033703; 3144134277; 1013904242; 2773480762;
    1359893119; 2600822924; 528734635; 1541459225 ].

Definition _K : list Z :=
  [ 1116352408; 1899447441; 3049323471; 3921009573;
    961987163; 1508970993; 2453635748; 2870763221;
    3624381080; 310598401; 607225278; 1426881987;
    1925078388; 2162078206; 2614888103; 3248222580;
    3835390401; 4022224774; 264347078; 604807628;
    770255983; 1249150122; 1555081692; 1996064986;
    2554220882; 2821834349; 2952996808; 3210313671;
    3336571891; 3584528711; 113926993; 338241895;
    666307205; 773529912; 1294757372; 1396182291;
    1695183700; 1986661051; 2177026350; 2456956037;
    2730485921; 2820302411; 3259730800; 3345764771;
    3516065817; 3600352804; 4094571909; 275423344;
    430227734; 506948616; 659060556; 883997877;
    958139571; 1322822218; 1537002063; 1747873779;
    1955562222; 2024104815; 2227730452; 2361852424;
    2428436474; 2756734187; 3204031479; 3329325298 ].

(** [uint32(p[j])<<24 | uint32(p[j+1])<<16 | uint32(p[j+2])<<8 | uint32(p[j+3])] *)
Fixpoint be_words (p : list Z) : list Z :=
  match p with
  | b0 :: b1 :: b2 :: b3 :: rest =>
      Z.lor (Z.lor (Z.lor (Z.shiftl b0 24) (Z.shiftl b1 16)) (Z.shiftl b2 8)) b3
      :: be_words rest
  | _ => []
  end.

(** one more entry of the message schedule: [w[i]] from [w[0..i-1]] *)
Definition next_w (w : list Z) : Z :=
  let i := length w in
  let v1 := nth (i - 2) w 0 in
  let t1 := Z.lxor (Z.lxor (rotr 17 v1) (rotr 19 v1)) (Z.shiftr v1 10) in
  let v2 := nth (i - 15) w 0 in
  let t2 := Z.lxor (Z.lxor (rotr 7 v2) (rotr 18 v2)) (Z.shiftr v2 3) in
  add32 (add32 (add32 t1 (nth (i - 7) w 0)) t2) (nth (i - 16) w 0).

Fixpoint schedule (n : nat) (w : list Z) : list Z :=
  match n with
  | O => w
  | S n' => schedule n' (w ++ [next_w w])
  end.

Record regs := Regs { ra : Z; rb : Z; rc : Z; rd : Z; re : Z; rf : Z; rg : Z; rh : Z }.

(** body of the loop [for i := 0; i < 64; i++] over the working variables *)
Definition round (r : regs) (kw : Z * Z) : regs :=
  let '(Regs a b c d e f g h) := r in
  let t1 :=
    add32 (add32 (add32 (add32 h
      (Z.lxor (Z.lxor (rotr 6 e) (rotr 11 e)) (rotr 25 e)))
      (Z.lxor (Z.land e f) (Z.land (not32 e) g)))
      (fst kw)) (snd kw) in
  let t2 :=
    add32 (Z.lxor (Z.lxor (rotr 2 a) (rotr 13 a)) (rotr 22 a))
          (Z.lxor (Z.lxor (Z.land a b) (Z.land a c)) (Z.land b c)) in
  Regs (add32 t1 t2) a b c (add32 d t1) e f g.

Definition regs_of (h : list Z) : regs :=
  Regs (nth 0 h 0) (nth 1 h 0) (nth 2 h 0) (nth 3 h 0)
       (nth 4 h 0) (nth 5 h 0) (nth 6 h 0) (nth 7 h 0).

Definition list_of (r : regs) : list Z :=
  [ra r; rb r; rc r; rd r; re r; rf r; rg r; rh r].

(** one 64-byte chunk folded into the chaining value [h] *)
Definition block (h : list Z) (p : list Z) : list Z :=
  let w := schedule 48 (be_words p) in
  let r := foldl round (regs_of h) (zip _K w) in
  zip_with add32 h (list_of r).

(** the loop [for len(p) >= chunk] of [blockGeneric]; [n] bounds the
    number of chunks *)
Fixpoint blocks (n : nat) (h : list Z) (p : list Z) : list Z :=
  match n with
  | O => h
  | S n' =>
      if decide (64 ≤ length p)%nat
      then blocks n' (block h (take 64 p)) (drop 64 p)
      else h
  end.

(** big-endian bytes of the low [8 * n] bits of [x] *)
Fixpoint be_bytes (n : nat) (x : Z) : list Z :=
  match n with
  | O => []
  | S n' => Z.land (Z.shiftr x (8 * Z.of_nat n')) 255 :: be_bytes n' x
  end.

(** [checkSum]: a [0x80] byte, zeros up to 56 modulo 64, then the length
    in bits as a big-endian [uint64] *)
Definition pad (msg : list Z) : list Z :=
  let len := Z.of_nat (length msg) in
  msg ++ [128] ++ replicate (Z.to_nat ((55 - len) mod 64)) 0
      ++ be_bytes 8 ((len * 8) mod 2 ^ 64).

(** [sha256.Sum256(data)]: the 32 bytes of the digest *)
Definition Sum256 (data : list Z) : list Z :=
  let p := pad data in
  mjoin (be_bytes 4 <$> blocks (length p) init p).

End sha256.

(** ** encoding/base64 *)
Module base64.

(** the alphabet [encodeURL] *)
Definition encodeURL : string :=
  "ABCDEFGHIJKLMNOPQRSTUVWXYZabcdefghijklmnopqrstuvwxyz0123456789-_".

(** [enc.encode[val>>k&0x3F]] *)
Definition sextet (val k : Z) : Ascii.ascii :=
  default Ascii.zero
    (String.get (Z.to_nat (Z.land (Z.shiftr val k) 63)) encodeURL).

(** [base64.RawURLEncoding.EncodeToString]: groups of three bytes give
    four characters, a remainder of one or two bytes gives two or three,
    and no padding character is written *)
Fixpoint RawURLEncoding_EncodeToString (src : list Z) : string :=
  match src with
  | [] => ""
  | [b0] =>
      let val := Z.shiftl b0 16 in
      String (sextet val 18) (String (sextet val 12) "")
  | [b0; b1] =>
      let val := Z.lor (Z.shiftl b0 16) (Z.shiftl b1 8) in
      String (sextet val 18) (String (sextet val 12) (String (sextet val 6) ""))
  | b0 :: b1 :: b2 :: rest =>
      let val := Z.lor (Z.lor (Z.shiftl b0 16) (Z.shiftl b1 8)) b2 in
      String (sextet val 18) (String (sextet val 12)
        (String (sextet val 6) (String (sextet val 0)
          (RawURLEncoding_EncodeToString rest))))
  end.

End base64.

(** ** Utilities of main.go *)

(** [verifyPKCE] (main.go, lines 242-251) *)
Definition verifyPKCE (challenge : string) (verifier : string) : bool :=
  let hash := sha256.Sum256 (bytes_of_string verifier) in
  let encoded := base64.RawURLEncoding_EncodeToString hash in
  String.eqb encoded challenge.

Definition hex_digit (x : Z) : Ascii.ascii :=
  default Ascii.zero (String.get (Z.to_nat x) "0123456789abcdef").

Fixpoint hex (b : list Z) : string :=
  match b with
  | [] => ""
  | x :: rest => String (hex_digit (x / 16)) (String (hex_digit (x mod 16)) (hex rest))
  end.

(** ** Constants and data (main.go, lines 21-46) *)

Definition ClientID : string := "demo-client".
Definition ClientSecret : string := "demo-secret".
Definition RedirectURI : string := "http://localhost:8080/cb".

(** [time.Time] and [time.Duration], in nanoseconds *)
Abbreviation Time := Z (only parsing).
Abbreviation Duration := Z (only parsing).

Module time.
Definition Second : Duration := 1000000000.
Definition Minute : Duration := 60 * Second.
Definition Hour : Duration := 60 * Minute.
(** [t.Add(d)] *)
Definition Add (t : Time) (d : Duration) : Time := t + d.
(** [t.After(u)]: [t] is strictly later than [u] *)
Definition After (t u : Time) : bool := bool_decide (u < t).
End time.

Module AuthCode.
Record t := Make {
  Code : string;
  ClientID : string;
  RedirectURI : string;
  CodeChallenge : string;
  CodeChallengeMethod : string;
  ExpiresAt : Time
}.
End AuthCode.

Module AccessToken.
Record t := Make {
  Token : string;
  ClientID : string;
  ExpiresAt : Time
}.
End AccessToken.

(** The package-level maps.  The mutex [mu] that guards them belongs to the
    interleaving model further down; a handler that runs alone finds it
    free at each [mu.Lock()]. *)
Record Server := MkServer {
  codeStore : gmap string AuthCode.t;
  tokenStore : gmap string AccessToken.t
}.

(** the state at start-up: both maps freshly made *)
Definition initial : Server := MkServer ∅ ∅.

(** ** net/http as the handlers use it *)

(** [url.Values] and [http.Header]: [map[string][]string] *)
Abbreviation Values := (gmap string (list string)) (only parsing).

(** [v.Get(key)]: the first value of [key], or the empty string *)
Definition Get (v : Values) (key : string) : string :=
  match v !! key with
  | Some (x :: _) => x
  | _ => ""
  end.

Record Request := MkRequest {
  Method : string;
  (** [r.URL.Query()] *)
  Query : Values;
  (** [r.ParseForm()]: [None] when it returns an error, else [r.Form] *)
  ParseForm : option Values;
  (** [r.Header], keyed by canonical header name *)
  Header : Values
}.

Definition StatusOK : Z := 200.
Definition StatusFound : Z := 302.
Definition StatusBadRequest : Z := 400.
Definition StatusUnauthorized : Z := 401.
Definition StatusMethodNotAllowed : Z := 405.

(** values the handlers hand to [json.NewEncoder(w).Encode] *)
Inductive JSON :=
  | JString (s : string)
  | JNumber (n : Z).

(** What a handler writes to its [http.ResponseWriter]. *)
Inductive Response :=
  (** [http.Error(w, error, code)]: plain text *)
  | http_Error (error : string) (code : Z)
  (** a redirect: the [Location] header and the status that
      [http.Redirect] sets on the response *)
  | http_Redirect (url : string) (code : Z)
  (** [Content-Type: application/json], the status, and the encoded map *)
  | json_Encode (status : Z) (v : gmap string JSON)
  (** the page of [handleCallback], with the values it prints *)
  | html_Callback (code state : string).

#[global] Instance JSON_eq_dec : EqDecision JSON.
Proof. solve_decision. Defined.

#[global] Instance Response_eq_dec : EqDecision Response.
Proof. solve_decision. Defined.

(** [hexEscapeNonASCII] of net/http: every byte from [0x80] up is replaced
    by [%] (the character 37) and its two lower-case hexadecimal digits;
    the other bytes are kept. *)
Fixpoint hexEscapeNonASCII (s : string) : string :=
  match s with
  | EmptyString => EmptyString
  | String a rest =>
      let b := Z.of_N (Ascii.N_of_ascii a) in
      if bool_decide (128 ≤ b)%Z then
        String (Ascii.ascii_of_nat 37)
          (String (hex_digit (b / 16))
             (String (hex_digit (b mod 16)) (hexEscapeNonASCII rest)))
      else String a (hexEscapeNonASCII rest)
  end.


(** [http.Redirect(w, r, url, code)] of net/http for a [url] that has a
    scheme, as every URL built at line 111 has: the URL is not resolved
    against the request, and the [Location] header is set to
    [hexEscapeNonASCII(url)]. *)
Definition Redirect (url : string) (code : Z) : Response :=
  http_Redirect (hexEscapeNonASCII url) code.

(** [jsonError] (main.go, lines 253-259) *)
Definition jsonError (err : string) (status : Z) : Response :=
  json_Encode status {[ "error" := JString err ]}.

(** ** Handlers *)

(** [handleAuthorize] (main.go, lines 66-114).  [uuid_New] is the value of
    [uuid.New().String()] at line 96 and [now] that of [time.Now()] at
    line 105. *)
Definition handleAuthorize (uuid_New : string) (now : Time)
    (r : Request) (s : Server) : Server * Response :=
  let query := Query r in
  if negb (String.eqb (Get query "client_id") ClientID) then
    (s, http_Error "Invalid client_id" StatusBadRequest)
  else if negb (String.eqb (Get query "redirect_uri") RedirectURI) then
    (s, http_Error "Invalid redirect_uri" StatusBadRequest)
  else if negb (String.eqb (Get query "response_type") "code") then
    (s, http_Error "Unsupported response_type" StatusBadRequest)
  else
    let challenge := Get query "code_challenge" in
    let method := Get query "code_challenge_method" in
    if String.eqb challenge "" || negb (String.eqb method "S256") then
      (s, http_Error "PKCE required (code_challenge + S256)" StatusBadRequest)
    else
      let code := uuid_New in
      let s :=
        MkServer
          (<[ code := AuthCode.Make code ClientID RedirectURI challenge method
                        (time.Add now (10 * time.Minute)) ]> (codeStore s))
          (tokenStore s) in
      let state := Get query "state" in
      let redirectURL := RedirectURI ++ "?code=" ++ code ++ "&state=" ++ state in
      (s, Redirect redirectURL StatusFound).

(** [handleToken] (main.go, lines 118-182).  [now1] is [time.Now()] at
    line 148, [uuid_New] the value of [uuid.New().String()] at line 165 and
    [now2] is [time.Now()] at line 171. *)
Definition handleToken (uuid_New : string) (now1 now2 : Time)
    (r : Request) (s : Server) : Server * Response :=
  if negb (String.eqb (Method r) "POST") then
    (s, http_Error "Method not allowed" StatusMethodNotAllowed)
  else
    match ParseForm r with
    | None => (s, http_Error "Failed to parse form" StatusBadRequest)
    | Some form =>
        let grantType := Get form "grant_type" in
        let code := Get form "code" in
        let verifier := Get form "code_verifier" in
        let clientID := Get form "client_id" in
        if negb (String.eqb grantType "authorization_code") then
          (s, jsonError "unsupported_grant_type" StatusBadRequest)
        else
          let found := codeStore s !! code in
          let s := MkServer (delete code (codeStore s)) (tokenStore s) in
          match found with
          | None => (s, jsonError "invalid_grant" StatusBadRequest)
          | Some authCode =>
              if time.After now1 (AuthCode.ExpiresAt authCode) then
                (s, jsonError "code_expired" StatusBadRequest)
              else if negb (String.eqb (AuthCode.ClientID authCode) clientID) then
                (s, jsonError "invalid_client" StatusUnauthorized)
              else if negb (verifyPKCE (AuthCode.CodeChallenge authCode) verifier) then
                (s, jsonError "invalid_request" StatusBadRequest)
              else
                let token := uuid_New in
                let s :=
                  MkServer (codeStore s)
                    (<[ token := AccessToken.Make token clientID
                                   (time.Add now2 (1 * time.Hour)) ]> (tokenStore s)) in
                (s, json_Encode StatusOK
                      {[ "access_token" := JString token;
                         "token_type" := JString "Bearer";
                         "expires_in" := JNumber 3600 ]})
          end
    end.

(** [strings.HasPrefix(s, prefix)] *)
Definition HasPrefix (s prefix : string) : bool := String.prefix prefix s.

(** [strings.TrimPrefix(s, prefix)] *)
Definition TrimPrefix (s prefix : string) : string :=
  if HasPrefix s prefix
  then String.substring (String.length prefix) (String.length s - String.length prefix) s
  else s.

(** the claims served by [/userinfo] *)
Definition userinfo : gmap string JSON :=
  {[ "sub" := JString "user_123";
     "name" := JString "Alice Doe";
     "email" := JString "alice@example.com";
     "role" := JString "admin";
     "data" := JString "Private Photos from Snap Store" ]}.

(** [handleUserInfo] (main.go, lines 186-212).  [now] is [time.Now()] at
    line 199. *)
Definition handleUserInfo (now : Time) (r : Request) (s : Server) : Server * Response :=
  let authHeader := Get (Header r) "Authorization" in
  if negb (HasPrefix authHeader "Bearer ") then
    (s, http_Error "Unauthorized" StatusUnauthorized)
  else
    let token := TrimPrefix authHeader "Bearer " in
    match tokenStore s !! token with
    | None => (s, http_Error "Invalid or expired token" StatusUnauthorized)
    | Some accessToken =>
        if time.After now (AccessToken.ExpiresAt accessToken) then
          (s, http_Error "Invalid or expired token" StatusUnauthorized)
        else
          (s, json_Encode StatusOK userinfo)
    end.

(** [handleCallback] (main.go, lines 215-236) *)
Definition handleCallback (r : Request) (s : Server) : Server * Response :=
  let code := Get (Query r) "code" in
  let state := Get (Query r) "state" in
  (s, html_Callback code state).


(** ** Handlers as goroutines

    The server runs every request in a goroutine of its own, and the
    handlers touch the two maps only between [mu.Lock()] and [mu.Unlock()].
    A goroutine is a program point of its handler together with the local
    variables live there.  One step is one action on the shared state (an
    acquisition or release of [mu], a map read, a map write) followed by
    the handler's own code up to its next such action.  [mu.Lock()] on a
    held mutex has no step: the goroutine waits. *)

(** what one step reads from the environment: [uuid.New().String()] and
    [time.Now()] *)
Record Env := MkEnv { env_uuid : string; env_now : Time }.

Inductive Goroutine :=
  (** [handleAuthorize]: entry; line 98; lines 99-106; line 107 *)
  | au_entry (r : Request)
  | au_lock (query : Values) (challenge method code : string)
  | au_store (query : Values) (challenge method code : string)
  | au_unlock (query : Values) (code : string)
  (** [handleToken]: entry; line 139; line 140; line 141; line 142;
      line 167; lines 168-172; line 173 *)
  | tk_entry (r : Request)
  | tk_lock1 (code verifier clientID : string)
  | tk_read (code verifier clientID : string)
  | tk_delete (code verifier clientID : string) (found : option AuthCode.t)
  | tk_unlock1 (verifier clientID : string) (found : option AuthCode.t)
  | tk_lock2 (clientID token : string)
  | tk_store (clientID token : string)
  | tk_unlock2 (token : string)
  (** [handleUserInfo]: entry; line 195; line 196; line 197 *)
  | ui_entry (r : Request)
  | ui_lock (token : string)
  | ui_read (token : string)
  | ui_unlock (found : option AccessToken.t)
  (** [handleCallback] *)
  | cb_entry (r : Request)
  (** the handler has returned, having written [resp] *)
  | Done (resp : Response).

(** the maps and the mutex: [mu = true] when some goroutine holds it *)
Record Shared := MkShared { server : Server; mu : bool }.

Definition Lock (next : Goroutine) (sh : Shared) : option (Goroutine * Shared) :=
  if mu sh then None else Some (next, MkShared (server sh) true).

Definition Unlock (sh : Shared) : Shared := MkShared (server sh) false.

(** One step of a goroutine; [None] when it has returned or waits for
    [mu]. *)
Definition step (e : Env) (g : Goroutine) (sh : Shared) : option (Goroutine * Shared) :=
  let s := server sh in
  match g with
  | au_entry r =>
      let query := Query r in
      if negb (String.eqb (Get query "client_id") ClientID) then
        Some (Done (http_Error "Invalid client_id" StatusBadRequest), sh)
      else if negb (String.eqb (Get query "redirect_uri") RedirectURI) then
        Some (Done (http_Error "Invalid redirect_uri" StatusBadRequest), sh)
      else if negb (String.eqb (Get query "response_type") "code") then
        Some (Done (http_Error "Unsupported response_type" StatusBadRequest), sh)
      else
        let challenge := Get query "code_challenge" in
        let method := Get query "code_challenge_method" in
        if String.eqb challenge "" || negb (String.eqb method "S256") then
          Some (Done (http_Error "PKCE required (code_challenge + S256)"
                        StatusBadRequest), sh)
        else
          Some (au_lock query challenge method (env_uuid e), sh)
  | au_lock query challenge method code =>
      Lock (au_store query challenge method code) sh
  | au_store query challenge method code =>
      Some (au_unlock query code,
            MkShared
              (MkServer
                 (<[ code := AuthCode.Make code ClientID RedirectURI challenge method
                               (time.Add (env_now e) (10 * time.Minute)) ]>
                    (codeStore s))
                 (tokenStore s))
              (mu sh))
  | au_unlock query code =>
      let state := Get query "state" in
      let redirectURL := RedirectURI ++ "?code=" ++ code ++ "&state=" ++ state in
      Some (Done (Redirect redirectURL StatusFound), Unlock sh)
  | tk_entry r =>
      if negb (String.eqb (Method r) "POST") then
        Some (Done (http_Error "Method not allowed" StatusMethodNotAllowed), sh)
      else
        match ParseForm r with
        | None => Some (Done (http_Error "Failed to parse form" StatusBadRequest), sh)
        | Some form =>
            let grantType := Get form "grant_type" in
            let code := Get form "code" in
            let verifier := Get form "code_verifier" in
            let clientID := Get form "client_id" in
            if negb (String.eqb grantType "authorization_code") then
              Some (Done (jsonError "unsupported_grant_type" StatusBadRequest), sh)
            else
              Some (tk_lock1 code verifier clientID, sh)
        end
  | tk_lock1 code verifier clientID =>
      Lock (tk_read code verifier clientID) sh
  | tk_read code verifier clientID =>
      Some (tk_delete code verifier clientID (codeStore s !! code), sh)
  | tk_delete code verifier clientID found =>
      Some (tk_unlock1 verifier clientID found,
            MkShared (MkServer (delete code (codeStore s)) (tokenStore s)) (mu sh))
  | tk_unlock1 verifier clientID found =>
      let sh := Unlock sh in
      match found with
      | None => Some (Done (jsonError "invalid_grant" StatusBadRequest), sh)
      | Some authCode =>
          if time.After (env_now e) (AuthCode.ExpiresAt authCode) then
            Some (Done (jsonError "code_expired" StatusBadRequest), sh)
          else if negb (String.eqb (AuthCode.ClientID authCode) clientID) then
            Some (Done (jsonError "invalid_client" StatusUnauthorized), sh)
          else if negb (verifyPKCE (AuthCode.CodeChallenge authCode) verifier) then
            Some (Done (jsonError "invalid_request" StatusBadRequest), sh)
          else
            Some (tk_lock2 clientID (env_uuid e), sh)
      end
  | tk_lock2 clientID token =>
      Lock (tk_store clientID token) sh
  | tk_store clientID token =>
      Some (tk_unlock2 token,
            MkShared
              (MkServer (codeStore s)
                 (<[ token := AccessToken.Make token clientID
                                (time.Add (env_now e) (1 * time.Hour)) ]>
                    (tokenStore s)))
              (mu sh))
  | tk_unlock2 token =>
      Some (Done (json_Encode StatusOK
                    {[ "access_token" := JString token;
                       "token_type" := JString "Bearer";
                       "expires_in" := JNumber 3600 ]}),
            Unlock sh)
  | ui_entry r =>
      let authHeader := Get (Header r) "Authorization" in
      if negb (HasPrefix authHeader "Bearer ") then
        Some (Done (http_Error "Unauthorized" StatusUnauthorized), sh)
      else
        Some (ui_lock (TrimPrefix authHeader "Bearer "), sh)
  | ui_lock token =>
      Lock (ui_read token) sh
  | ui_read token =>
      Some (ui_unlock (tokenStore s !! token), sh)
  | ui_unlock found =>
      let sh := Unlock sh in
      match found with
      | None => Some (Done (http_Error "Invalid or expired token" StatusUnauthorized), sh)
      | Some accessToken =>
          if time.After (env_now e) (AccessToken.ExpiresAt accessToken) then
            Some (Done (http_Error "Invalid or expired token" StatusUnauthorized), sh)
          else
            Some (Done (json_Encode StatusOK userinfo), sh)
      end
  | cb_entry r =>
      Some (Done (html_Callback (Get (Query r) "code") (Get (Query r) "state")), sh)
  | Done _ => None
  end.

(** The routes registered by [main] (lines 53-56), for a [path] in clean
    form (the mux sends a request for any other spelling of a path back to
    the clean one); a clean path that is none of the four is answered by
    the server's own not-found handler. *)
Definition route (path : string) (r : Request) : Goroutine :=
  if String.eqb path "/authorize" then au_entry r
  else if String.eqb path "/token" then tk_entry r
  else if String.eqb path "/userinfo" then ui_entry r
  else if String.eqb path "/cb" then cb_entry r
  else Done (http_Error "404 page not found" 404).

(** The whole server: the shared state and the goroutines started so far. *)
Record Config := MkConfig { shared : Shared; goroutines : list Goroutine }.

Definition boot : Config := MkConfig (MkShared initial false) [].

Inductive Event :=
  (** a request arrives and gets its goroutine *)
  | Serve (path : string) (r : Request)
  (** the scheduler lets goroutine [i] take a step *)
  | Run (i : nat) (e : Env).

(** One event; [None] when goroutine [i] does not exist or cannot step. *)
Definition exec (ev : Event) (c : Config) : option Config :=
  match ev with
  | Serve path r => Some (MkConfig (shared c) (goroutines c ++ [route path r]))
  | Run i e =>
      g ← goroutines c !! i;
      '(g', sh') ← step e g (shared c);
      Some (MkConfig sh' (<[ i := g' ]> (goroutines c)))
  end.

Fixpoint run (evs : list Event) (c : Config) : option Config :=
  match evs with
  | [] => Some c
  | ev :: evs' => c' ← exec ev c; run evs' c'
  end.

(** A goroutine run on its own, one step per element of [es], until it
    returns. *)
Fixpoint alone (es : list Env) (g : Goroutine) (sh : Shared) : Goroutine * Shared :=
  match es with
  | [] => (g, sh)
  | e :: es' =>
      match step e g sh with
      | Some (g', sh') => alone es' g' sh'
      | None => (g, sh)
      end
  end.

Definition returned (g : Goroutine) : option Response :=
  match g with
  | Done resp => Some resp
  | _ => None
  end.

(** a schedule: which goroutine steps next, and what it reads *)
Definition interleaving (sched : list (nat * Env)) : list Event :=
  (λ ie, Run ie.1 ie.2) <$> sched.

(** ** The walk-through of the README, as concrete inputs *)
Module Demo.

Definition challenge : string := "LQZxoESZIZMv7j_6u2jBWnivm0jsDelp3OLcKeo64S4".
Definition verifier : string := "secret-verifier-string".

(** [GET /authorize?response_type=code&client_id=demo-client&...] *)
Definition authorize : Request :=
  MkRequest "GET"
    {[ "response_type" := ["code"];
       "client_id" := ["demo-client"];
       "redirect_uri" := ["http://localhost:8080/cb"];
       "scope" := ["read"];
       "state" := ["xyz123"];
       "code_challenge" := [challenge];
       "code_challenge_method" := ["S256"] ]}
    (Some ∅) ∅.



(** the same request from a client that plays no PKCE *)
Definition authorize_plain : Request :=
  MkRequest "GET"
    {[ "response_type" := ["code"];
       "client_id" := ["demo-client"];
       "redirect_uri" := ["http://localhost:8080/cb"];
       "code_challenge" := [challenge];
       "code_challenge_method" := ["plain"] ]}
    (Some ∅) ∅.

(** the form posted to [/token] *)
Definition form (code verifier : string) : Values :=
  {[ "grant_type" := ["authorization_code"];
     "client_id" := ["demo-client"];
     "code" := [code];
     "redirect_uri" := ["http://localhost:8080/cb"];
     "code_verifier" := [verifier] ]}.

(** the same form sent under another client id *)
Definition other_client_form : Values :=
  <[ "client_id" := ["someone-else"] ]>
    (form "3f0c8d5e-7a41-4c1b-9e57-0b6c2f4d8a10" verifier).

Definition token (code verifier : string) : Request :=
  MkRequest "POST" ∅ (Some (form code verifier)) ∅.

(** [GET /token]: the token endpoint reached with the wrong method *)
Definition token_get (code : string) : Request :=
  MkRequest "GET" (form code verifier) (Some (form code verifier)) ∅.

Definition userinfo (bearer : string) : Request :=
  MkRequest "GET" ∅ (Some ∅) {[ "Authorization" := ["Bearer " ++ bearer] ]}.

Definition code1 : string := "3f0c8d5e-7a41-4c1b-9e57-0b6c2f4d8a10".
Definition token1 : string := "a1b2c3d4-e5f6-4789-8abc-def012345678".

(** an instant, and the server after one authorization at that instant *)
Definition t0 : Time := 1700000000 * time.Second.
Definition issued : Server := fst (handleAuthorize code1 t0 authorize initial).

(** a session: the authorization, then the exchange, one goroutine each,
    with a request for the user claims arriving in between *)
Definition env (uuid : string) (seconds : Z) : Env :=
  MkEnv uuid (t0 + seconds * time.Second).

Definition session : list Event :=
  [ Serve "/authorize" authorize;
    Run 0 (env code1 0); Run 0 (env code1 0);
    Serve "/userinfo" (userinfo token1);
    Run 0 (env code1 0); Run 1 (env "" 1); Run 0 (env code1 1);
    Serve "/token" (token code1 verifier);
    Run 2 (env "" 2); Run 2 (env "" 2); Run 2 (env "" 2); Run 2 (env "" 2);
    Run 2 (env token1 2);
    Run 1 (env "" 2); Run 1 (env "" 2); Run 1 (env "" 2);
    Run 2 (env "" 3); Run 2 (env "" 3); Run 2 (env "" 3) ].

Definition after_session : Config := default boot (run session boot).

(** three exchanges of the one code issued above, the second with a wrong
    verifier, and an interleaving of their steps *)
Definition racers : list Request :=
  [ token code1 verifier; token code1 "not-the-verifier"; token code1 verifier ].

Definition race_start : Config :=
  MkConfig (MkShared issued false) (tk_entry <$> racers).

Definition race : list (nat * Env) :=
  [ (0, env "" 1); (1, env "" 1); (0, env "" 1); (2, env "" 1);
    (0, env "" 1); (0, env "" 1); (0, env token1 1);
    (1, env "" 2); (1, env "" 2); (1, env "" 2); (1, env "" 2);
    (0, env "" 2); (0, env "" 2);
    (0, env "" 2);
    (2, env "" 3); (2, env "" 3); (2, env "" 3); (2, env "" 3) ]%nat.

Definition after_race : Config :=
  default boot (run (interleaving race) race_start).

End Demo.

(** ** Invariants *)

(** every stored code and every stored token belongs to the registered
    client *)
Definition stores_ok (s : Server) : Prop :=
  map_Forall (λ _ authCode, AuthCode.ClientID authCode = ClientID) (codeStore s)
  ∧ map_Forall (λ _ accessToken, AccessToken.ClientID accessToken = ClientID)
      (tokenStore s).

(** what a goroutine of [handleToken] holds in its local variables: an
    entry read from the code store belongs to the registered client, and
    so does the client id that has passed the check of line 152 *)
Definition locals_ok (g : Goroutine) : Prop :=
  match g with
  | tk_delete _ _ _ (Some authCode) | tk_unlock1 _ _ (Some authCode) =>
      AuthCode.ClientID authCode = ClientID
  | tk_lock2 clientID _ | tk_store clientID _ => clientID = ClientID
  | _ => True
  end.

Definition config_ok (c : Config) : Prop :=
  stores_ok (server (shared c)) ∧ Forall locals_ok (goroutines c).

(** the goroutine is between [mu.Lock()] and [mu.Unlock()] *)
Definition holding (g : Goroutine) : bool :=
  match g with
  | au_store _ _ _ _ | au_unlock _ _
  | tk_read _ _ _ | tk_delete _ _ _ _ | tk_unlock1 _ _ _
  | tk_store _ _ | tk_unlock2 _
  | ui_read _ | ui_unlock _ => true
  | _ => false
  end.

(** the number of elements of [l] that satisfy [P] *)
Fixpoint count {A : Type} (P : A → bool) (l : list A) : nat :=
  match l with
  | [] => 0%nat
  | x :: l' => ((if P x then 1 else 0) + count P l')%nat
  end.

(** at most one goroutine holds [mu], and [mu] is held exactly then *)
Definition mutex_ok (c : Config) : Prop :=
  count holding (goroutines c) = (if mu (shared c) then 1 else 0)%nat.

(** ** Exchanges that race for one code *)

(** [r] is a token request that gets as far as the lookup of [code] *)
Definition exchanges (code : string) (r : Request) : Prop :=
  Method r = "POST"
  ∧ ∃ form, ParseForm r = Some form
            ∧ Get form "grant_type" = "authorization_code"
            ∧ Get form "code" = code.

(** a goroutine of [handleToken] on the way to, or past, its lookup of
    [code] *)
Definition racing (code : string) (g : Goroutine) : Prop :=
  match g with
  | tk_entry r => exchanges code r
  | tk_lock1 c _ _ | tk_read c _ _ | tk_delete c _ _ _ => c = code
  | tk_unlock1 _ _ _ | tk_lock2 _ _ | tk_store _ _ | tk_unlock2 _ | Done _ => True
  | _ => False
  end.

(** the goroutine has not yet executed line 141 *)
Definition early (g : Goroutine) : bool :=
  match g with
  | tk_entry _ | tk_lock1 _ _ _ | tk_read _ _ _ | tk_delete _ _ _ _ => true
  | _ => false
  end.

(** the goroutine has taken the entry out of the code store: it has left the
    critical section of lines 139-142 with [exists = true], or has returned
    with an answer other than [invalid_grant] *)
Definition present (g : Goroutine) : bool :=
  match g with
  | tk_unlock1 _ _ (Some _) | tk_lock2 _ _ | tk_store _ _ | tk_unlock2 _ => true
  | Done resp => bool_decide (resp ≠ jsonError "invalid_grant" StatusBadRequest)
  | _ => false
  end.

Record race_inv (code : string) (c : Config) : Prop := MkRaceInv {
  race_racing : Forall (racing code) (goroutines c);
  race_mutex : mutex_ok c;
  (** the holder of [mu] that has read the map knows what is in it *)
  race_read : ∀ i c0 verifier clientID found,
    goroutines c !! i = Some (tk_delete c0 verifier clientID found) →
    found = codeStore (server (shared c)) !! code;
  (** the entry is either still in the store or in the hands of exactly
      one goroutine *)
  race_one :
    (count present (goroutines c)
     + match codeStore (server (shared c)) !! code with
       | Some _ => 1
       | None => 0
       end = 1)%nat;
  (** once a goroutine is past line 141 the entry is gone *)
  race_gone : ∀ i g,
    goroutines c !! i = Some g → early g = false →
    codeStore (server (shared c)) !! code = None
}.

(** an upper bound on the steps a goroutine still has to take *)
Definition remaining (g : Goroutine) : nat :=
  match g with
  | au_entry _ => 4 | au_lock _ _ _ _ => 3 | au_store _ _ _ _ => 2 | au_unlock _ _ => 1
  | tk_entry _ => 8 | tk_lock1 _ _ _ => 7 | tk_read _ _ _ => 6 | tk_delete _ _ _ _ => 5
  | tk_unlock1 _ _ _ => 4 | tk_lock2 _ _ => 3 | tk_store _ _ => 2 | tk_unlock2 _ => 1
  | ui_entry _ => 4 | ui_lock _ => 3 | ui_read _ => 2 | ui_unlock _ => 1
  | cb_entry _ => 1
  | Done _ => 0
  end.

(** ** Auxiliary notions for the further properties *)

(** a value a Go [byte] can hold *)
Definition is_byte (b : Z) : Prop := 0 ≤ b < 256.

(** the index of the first occurrence of [c] in [s] *)
Fixpoint position (c : Ascii.ascii) (s : string) : option nat :=
  match s with
  | EmptyString => None
  | String a s' => if Ascii.eqb a c then Some 0%nat else S <$> position c s'
  end.

(** [c] is one of the 64 characters of the URL-safe alphabet *)
Definition urlsafe (c : Ascii.ascii) : Prop :=
  is_Some (position c base64.encodeURL).

(** every stored code is keyed by its own value, carries the registered
    redirect URI and a non-empty challenge with method [S256]; every stored
    token is keyed by its own value *)
Definition stores_wf (s : Server) : Prop :=
  map_Forall (λ k authCode,
                AuthCode.Code authCode = k
                ∧ AuthCode.RedirectURI authCode = RedirectURI
                ∧ AuthCode.CodeChallenge authCode ≠ ""
                ∧ AuthCode.CodeChallengeMethod authCode = "S256")
    (codeStore s)
  ∧ map_Forall (λ k accessToken, AccessToken.Token accessToken = k) (tokenStore s).

(** the challenge and the method an authorization carries to line 99 have
    passed the check of line 86 *)
Definition locals_wf (g : Goroutine) : Prop :=
  match g with
  | au_lock _ challenge method _ | au_store _ challenge method _ =>
      challenge ≠ "" ∧ method = "S256"
  | _ => True
  end.

(** no handler on its way to a map write (line 99 or line 168) has drawn
    the identifier [k] *)
Definition not_drawn (k : string) (g : Goroutine) : Prop :=
  match g with
  | au_lock _ _ _ code | au_store _ _ _ code => code ≠ k
  | tk_lock2 _ token | tk_store _ token => token ≠ k
  | _ => True
  end.

(** no step of the schedule reads [k] from [uuid.New()] *)
Definition never_draws (k : string) (ev : Event) : Prop :=
  match ev with
  | Run _ e => env_uuid e ≠ k
  | Serve _ _ => True
  end.

(** requests that come after the session of [Demo]: the spent code is
    presented again, a new code is issued, and the token is shown once
    more *)
Module Later.

Definition code2 : string := "9b2e4c1a-5d3f-4e6a-8c7b-1f0a2d3e4c5b".

Definition events : list Event :=
  [ Serve "/token" (Demo.token Demo.code1 Demo.verifier);
    Serve "/authorize" Demo.authorize;
    Run 3 (Demo.env "" 10); Run 4 (Demo.env code2 10);
    Run 3 (Demo.env "" 10); Run 3 (Demo.env "" 10); Run 3 (Demo.env "" 10);
    Run 3 (Demo.env "" 11); Run 4 (Demo.env "" 11);
    Serve "/userinfo" (Demo.userinfo Demo.token1);
    Run 5 (Demo.env "" 12); Run 4 (Demo.env "" 12); Run 4 (Demo.env "" 12);
    Run 5 (Demo.env "" 12); Run 5 (Demo.env "" 12); Run 5 (Demo.env "" 12) ].

Definition state : Config := default boot (run events Demo.after_session).

(** the session of [Demo] stopped while the exchange holds [mu] at
    line 141 *)
Definition midway : Config := default boot (run (take 11 Demo.session) boot).

End Later.

(** the goroutine has executed line 168 *)
Definition past_store (g : Goroutine) : bool :=
  match g with
  | tk_unlock2 _ | Done _ => true
  | _ => false
  end.

(** what the racers for a code hold in their local variables, when
    [authCode] is the entry the race started with: the entry they read is
    that one, and a client id that passed line 152 is its client id *)
Definition race_local (authCode : AuthCode.t) (g : Goroutine) : Prop :=
  match g with
  | tk_delete _ _ _ (Some found) | tk_unlock1 _ _ (Some found) => found = authCode
  | tk_lock2 clientID _ | tk_store clientID _ =>
      clientID = AuthCode.ClientID authCode
  | _ => True
  end.

(** the token store during a race that started from [tokens]: nothing has
    been added, or one token has, by the goroutine that took the entry *)
Definition race_tokens (code : string) (authCode : AuthCode.t)
    (tokens : gmap string AccessToken.t) (c : Config) : Prop :=
  (∀ found, codeStore (server (shared c)) !! code = Some found → found = authCode)
  ∧ Forall (race_local authCode) (goroutines c)
  ∧ (tokenStore (server (shared c)) = tokens
     ∨ (∃ token expiresAt,
          tokenStore (server (shared c))
          = <[ token := AccessToken.Make token (AuthCode.ClientID authCode) expiresAt ]>
              tokens)
       ∧ ∃ i g, goroutines c !! i = Some g
                ∧ present g = true ∧ past_store g = true).
(** * Properties *)

(** ** The PKCE check *)

Example sha256_abc :
  hex (sha256.Sum256 (bytes_of_string "abc"))
  = "ba7816bf8f01cfea414140de5dae2223b00361a396177a9cb410ff61f20015ad".
Proof. vm_compute. reflexivity. Qed.

Example sha256_empty :
  hex (sha256.Sum256 [])
  = "e3b0c44298fc1c149afbf4c8996fb92427ae41e4649b934ca495991b7852b855".
Proof. vm_compute. reflexivity. Qed.

Example sha256_two_blocks :
  hex (sha256.Sum256
         (bytes_of_string "abcdbcdecdefdefgefghfghighijhijkijkljklmklmnlmnomnopnopq"))
  = "248d6a61d20638b8e5c026930c3e6039a33ce45964ff2167f6ecedd419db06c1".
Proof. vm_compute. reflexivity. Qed.

Example base64_foobar :
  base64.RawURLEncoding_EncodeToString <$>
    (bytes_of_string <$> ["f"; "fo"; "foo"; "foob"; "fooba"; "foobar"])
  = ["Zg"; "Zm8"; "Zm9v"; "Zm9vYg"; "Zm9vYmE"; "Zm9vYmFy"].
Proof. vm_compute. reflexivity. Qed.

Example base64_urlsafe :
  base64.RawURLEncoding_EncodeToString [251; 255; 191] = "-_-_".
Proof. vm_compute. reflexivity. Qed.

Example verifyPKCE_demo :
  verifyPKCE "LQZxoESZIZMv7j_6u2jBWnivm0jsDelp3OLcKeo64S4" "secret-verifier-string" = true.
Proof. vm_compute. reflexivity. Qed.

(** C1. [verifyPKCE challenge verifier] is [true] exactly when the unpadded
    URL-safe base64 encoding of the SHA-256 digest of the bytes of
    [verifier] is the string [challenge], byte for byte.  The function is a
    pure function of its two arguments: it neither reads nor returns the
    server state. *)
Theorem verifyPKCE_spec (challenge verifier : string) :
  verifyPKCE challenge verifier = true
  ↔ base64.RawURLEncoding_EncodeToString
      (sha256.Sum256 (bytes_of_string verifier)) = challenge.
Proof.
  unfold verifyPKCE. cbv zeta. apply String.eqb_eq.
Qed.

(** The digest has 32 bytes, its encoding 43 characters of the URL-safe
    alphabet, none of them the padding character; a challenge of any other
    length is rejected whatever the verifier. *)

Lemma blocks_length (n : nat) (h p : list Z) :
  length h = 8%nat → length (sha256.blocks n h p) = 8%nat.
Proof.
  revert h p. induction n as [|n IH]; intros h p Hh; simpl; [done|].
  case_decide; [|done]. apply IH.
  unfold sha256.block. rewrite length_zip_with. simpl. lia.
Qed.

Lemma Sum256_length (data : list Z) : length (sha256.Sum256 data) = 32%nat.
Proof.
  unfold sha256.Sum256. cbv zeta.
  pose proof (blocks_length (length (sha256.pad data)) sha256.init
                (sha256.pad data) eq_refl) as Hlen.
  destruct (sha256.blocks _ _ _) as [|h0 [|h1 [|h2 [|h3 [|h4 [|h5 [|h6 [|h7 [|]]]]]]]]];
    done.
Qed.

Lemma EncodeToString_length (src : list Z) :
  String.length (base64.RawURLEncoding_EncodeToString src)
  = ((length src * 4 + 2) / 3)%nat.
Proof.
  revert src. fix IH 1. intros [|b0 [|b1 [|b2 rest]]]; [done | done | done |].
  change (S (S (S (S (String.length (base64.RawURLEncoding_EncodeToString rest)))))
          = ((length (b0 :: b1 :: b2 :: rest) * 4 + 2) / 3)%nat).
  rewrite (IH rest). simpl length.
  replace (S (S (S (length rest))) * 4 + 2)%nat
    with ((length rest * 4 + 2) + 4 * 3)%nat by lia.
  rewrite Nat.div_add by lia. lia.
Qed.

Lemma sextet_urlsafe (val k : Z) :
  ∃ n, (n < 64)%nat ∧ String.get n base64.encodeURL = Some (base64.sextet val k).
Proof.
  unfold base64.sextet.
  change 63 with (Z.ones 6). rewrite Z.land_ones by lia.
  pose proof (Z.mod_pos_bound (Z.shiftr val k) (2 ^ 6) eq_refl) as Hb.
  set (n := Z.to_nat (Z.shiftr val k `mod` 2 ^ 6)).
  assert (n < 64)%nat as Hn by (subst n; lia).
  exists n. split; [done|].
  clearbody n. clear Hb.
  do 64 (destruct n as [|n]; [reflexivity|]). lia.
Qed.

Lemma verifyPKCE_length (challenge verifier : string) :
  verifyPKCE challenge verifier = true → String.length challenge = 43%nat.
Proof.
  unfold verifyPKCE. cbv zeta. intros H. apply String.eqb_eq in H as <-.
  by rewrite EncodeToString_length, Sum256_length.
Qed.

(** ** The token endpoint: method check *)

(** C9. A request to the token endpoint whose method is not POST is
    answered "Method not allowed" (405) whatever else it carries, and the
    code store and the token store are left as they were. *)
Theorem handleToken_method_not_allowed
    (uuid_New : string) (now1 now2 : Time) (r : Request) (s : Server) :
  Method r ≠ "POST" →
  handleToken uuid_New now1 now2 r s
  = (s, http_Error "Method not allowed" StatusMethodNotAllowed).
Proof.
  intros Hm. unfold handleToken.
  apply String.eqb_neq in Hm. rewrite Hm. reflexivity.
Qed.

Lemma handleToken_method_not_allowed_witness :
  handleToken Demo.token1 Demo.t0 Demo.t0 (Demo.token_get Demo.code1) Demo.issued
  = (Demo.issued, http_Error "Method not allowed" 405).
Proof.
  apply (handleToken_method_not_allowed Demo.token1 Demo.t0 Demo.t0
           (Demo.token_get Demo.code1) Demo.issued).
  vm_compute. discriminate.
Defined.

(** ** The authorization endpoint *)

Local Ltac eqb_cases :=
  repeat match goal with
  | |- context [String.eqb ?a ?b] => destruct (String.eqb_spec a b); simpl
  end.

(** C6. [handleAuthorize] checks, in this order, the client id, the
    redirect URI, the response type and the PKCE parameters; the first check
    that fails decides the answer (a 400 with that check's own message) and
    the server state, hence the code store, is returned unchanged.  In the
    specification's vocabulary the four messages are [invalid_client],
    [invalid_redirect_uri], [unsupported_response_type] and
    [pkce_required]. *)
Theorem handleAuthorize_validation_order
    (uuid_New : string) (now : Time) (r : Request) (s : Server) :
  let q := Query r in
  let out := handleAuthorize uuid_New now r s in
  (Get q "client_id" ≠ ClientID →
     out = (s, http_Error "Invalid client_id" 400))
  ∧ (Get q "client_id" = ClientID →
     Get q "redirect_uri" ≠ RedirectURI →
     out = (s, http_Error "Invalid redirect_uri" 400))
  ∧ (Get q "client_id" = ClientID →
     Get q "redirect_uri" = RedirectURI →
     Get q "response_type" ≠ "code" →
     out = (s, http_Error "Unsupported response_type" 400))
  ∧ (Get q "client_id" = ClientID →
     Get q "redirect_uri" = RedirectURI →
     Get q "response_type" = "code" →
     Get q "code_challenge" = "" ∨ Get q "code_challenge_method" ≠ "S256" →
     out = (s, http_Error "PKCE required (code_challenge + S256)" 400))
  ∧ (Get q "client_id" = ClientID →
     Get q "redirect_uri" = RedirectURI →
     Get q "response_type" = "code" →
     Get q "code_challenge" ≠ "" →
     Get q "code_challenge_method" = "S256" →
     ∃ url, out.2 = http_Redirect url 302).
Proof.
  intros q out. subst q out. unfold handleAuthorize.
  repeat split; intros; eqb_cases; try done; try (by eexists).
  all: by match goal with H : _ ∨ _ |- _ => destruct H end.
Qed.

Lemma handleAuthorize_validation_order_witness :
  handleAuthorize Demo.code1 Demo.t0 Demo.authorize_plain initial
  = (initial, http_Error "PKCE required (code_challenge + S256)" 400).
Proof.
  apply (handleAuthorize_validation_order
           Demo.code1 Demo.t0 Demo.authorize_plain initial).
  - reflexivity.
  - reflexivity.
  - reflexivity.
  - right. vm_compute. discriminate.
Defined.






(** ** The token endpoint *)

(** A request gets as far as the code lookup of lines 139-142 when it is a
    POST whose form parses and whose grant type is [authorization_code]. *)
Lemma handleToken_lookup
    (uuid_New : string) (now1 now2 : Time) (r : Request) (s : Server)
    (form : Values) :
  Method r = "POST" →
  ParseForm r = Some form →
  Get form "grant_type" = "authorization_code" →
  handleToken uuid_New now1 now2 r s =
    let code := Get form "code" in
    let clientID := Get form "client_id" in
    let s' := MkServer (delete code (codeStore s)) (tokenStore s) in
    match codeStore s !! code with
    | None => (s', jsonError "invalid_grant" 400)
    | Some authCode =>
        if bool_decide (AuthCode.ExpiresAt authCode < now1) then
          (s', jsonError "code_expired" 400)
        else if bool_decide (AuthCode.ClientID authCode ≠ clientID) then
          (s', jsonError "invalid_client" 401)
        else if verifyPKCE (AuthCode.CodeChallenge authCode)
                  (Get form "code_verifier") then
          (MkServer (codeStore s')
             (<[ uuid_New := AccessToken.Make uuid_New clientID
                               (time.Add now2 (1 * time.Hour)) ]> (tokenStore s')),
           json_Encode 200
             {[ "access_token" := JString uuid_New;
                "token_type" := JString "Bearer";
                "expires_in" := JNumber 3600 ]})
        else (s', jsonError "invalid_request" 400)
    end.
Proof.
  intros Hm Hf Hg. unfold handleToken. rewrite Hm, Hf, Hg. simpl.
  destruct (codeStore s !! Get form "code") as [authCode|]; [|done].
  unfold time.After. case_bool_decide; [done|].
  destruct (String.eqb_spec (AuthCode.ClientID authCode) (Get form "client_id"));
    simpl; case_bool_decide; try done.
  by destruct (verifyPKCE _ _).
Qed.

(** C3. A POST with a parsed form is validated in this order, the first
    failing step deciding the answer: the grant type
    ([unsupported_grant_type]), the presence of the code in the code store
    ([invalid_grant]), the expiry of the stored entry ([code_expired]), its
    client id against the request's ([invalid_client], the only 401) and
    the PKCE check of the request's verifier against the stored challenge
    ([invalid_request]).  When all five pass the answer is the token
    response. *)
Theorem handleToken_validation_order
    (uuid_New : string) (now1 now2 : Time) (r : Request) (s : Server)
    (form : Values) :
  Method r = "POST" →
  ParseForm r = Some form →
  let grantType := Get form "grant_type" in
  let code := Get form "code" in
  let verifier := Get form "code_verifier" in
  let clientID := Get form "client_id" in
  let resp := (handleToken uuid_New now1 now2 r s).2 in
  (grantType ≠ "authorization_code" →
     resp = jsonError "unsupported_grant_type" 400)
  ∧ (grantType = "authorization_code" →
     codeStore s !! code = None →
     resp = jsonError "invalid_grant" 400)
  ∧ (∀ authCode,
       grantType = "authorization_code" →
       codeStore s !! code = Some authCode →
       (AuthCode.ExpiresAt authCode < now1 →
          resp = jsonError "code_expired" 400)
       ∧ ((now1 ≤ AuthCode.ExpiresAt authCode)%Z →
          AuthCode.ClientID authCode ≠ clientID →
          resp = jsonError "invalid_client" 401)
       ∧ ((now1 ≤ AuthCode.ExpiresAt authCode)%Z →
          AuthCode.ClientID authCode = clientID →
          verifyPKCE (AuthCode.CodeChallenge authCode) verifier = false →
          resp = jsonError "invalid_request" 400)
       ∧ ((now1 ≤ AuthCode.ExpiresAt authCode)%Z →
          AuthCode.ClientID authCode = clientID →
          verifyPKCE (AuthCode.CodeChallenge authCode) verifier = true →
          ∃ body, resp = json_Encode 200 body
                  ∧ body !! "access_token" = Some (JString uuid_New)
                  ∧ body !! "error" = None)).
Proof.
  intros Hm Hf grantType code verifier clientID resp.
  subst grantType code verifier clientID resp. split_and!.
  - intros Hg. unfold handleToken. rewrite Hm, Hf.
    apply String.eqb_neq in Hg. by rewrite Hg.
  - intros Hg Hnone.
    rewrite (handleToken_lookup _ _ _ _ _ _ Hm Hf Hg). simpl. by rewrite Hnone.
  - intros authCode Hg Hsome.
    rewrite (handleToken_lookup _ _ _ _ _ _ Hm Hf Hg). simpl. rewrite Hsome.
    split_and!; intros; repeat case_bool_decide; try done; try lia.
    + by match goal with H : verifyPKCE _ _ = _ |- _ => rewrite H end.
    + match goal with H : verifyPKCE _ _ = _ |- _ => rewrite H end.
      eexists. split; [reflexivity|]. split; [reflexivity|].
      repeat (rewrite lookup_insert_ne; [|done]). by rewrite lookup_singleton_ne.
Qed.

Lemma handleToken_validation_order_witness :
  (handleToken Demo.token1 (Demo.t0 + 1) (Demo.t0 + 2)
     (MkRequest "POST" ∅ (Some Demo.other_client_form) ∅) Demo.issued).2
  = jsonError "invalid_client" 401.
Proof.
  pose proof (handleToken_validation_order Demo.token1 (Demo.t0 + 1) (Demo.t0 + 2)
                (MkRequest "POST" ∅ (Some Demo.other_client_form) ∅) Demo.issued
                Demo.other_client_form eq_refl eq_refl) as (_ & _ & H).
  destruct (H (AuthCode.Make Demo.code1 "demo-client" "http://localhost:8080/cb"
                 Demo.challenge "S256" (Demo.t0 + 10 * 60 * 1000000000)))
    as (_ & Hclient & _).
  - reflexivity.
  - vm_compute. reflexivity.
  - apply Hclient.
    + vm_compute. discriminate.
    + vm_compute. discriminate.
Defined.

(** C4. A token request that passes the five steps stores, under the
    freshly drawn token value, an access token carrying that value, the
    request's client id and an expiry exactly one hour (3600 s) after
    [now2]; the other entries of the token store are kept; the answer is
    200 with the body
    [{access_token: <token>, token_type: "Bearer", expires_in: 3600}]. *)
Theorem handleToken_issues_token
    (uuid_New : string) (now1 now2 : Time) (r : Request) (s : Server)
    (form : Values) (authCode : AuthCode.t) :
  Method r = "POST" →
  ParseForm r = Some form →
  Get form "grant_type" = "authorization_code" →
  codeStore s !! Get form "code" = Some authCode →
  (now1 ≤ AuthCode.ExpiresAt authCode)%Z →
  AuthCode.ClientID authCode = Get form "client_id" →
  verifyPKCE (AuthCode.CodeChallenge authCode) (Get form "code_verifier") = true →
  let out := handleToken uuid_New now1 now2 r s in
  tokenStore out.1 !! uuid_New
    = Some (AccessToken.Make uuid_New (Get form "client_id")
              (now2 + 3600 * 1000000000))
  ∧ (∀ k, k ≠ uuid_New → tokenStore out.1 !! k = tokenStore s !! k)
  ∧ out.2 = json_Encode 200
              {[ "access_token" := JString uuid_New;
                 "token_type" := JString "Bearer";
                 "expires_in" := JNumber 3600 ]}.
Proof.
  intros Hm Hf Hg Hsome Hexp Hcl Hpkce out. subst out.
  rewrite (handleToken_lookup _ _ _ _ _ _ Hm Hf Hg). simpl.
  rewrite Hsome, Hpkce. repeat case_bool_decide; try done; try lia.
  simpl. split_and!.
  - by rewrite lookup_insert_eq.
  - intros k Hk. by rewrite lookup_insert_ne.
  - done.
Qed.

Lemma handleToken_issues_token_witness :
  let out := handleToken Demo.token1 (Demo.t0 + 1) (Demo.t0 + 2)
               (Demo.token Demo.code1 Demo.verifier) Demo.issued in
  tokenStore out.1 !! Demo.token1
    = Some (AccessToken.Make Demo.token1 "demo-client"
              (Demo.t0 + 2 + 3600 * 1000000000))
  ∧ out.2 = json_Encode 200
              {[ "access_token" := JString Demo.token1;
                 "token_type" := JString "Bearer";
                 "expires_in" := JNumber 3600 ]}.
Proof.
  destruct (handleToken_issues_token Demo.token1 (Demo.t0 + 1) (Demo.t0 + 2)
              (Demo.token Demo.code1 Demo.verifier) Demo.issued
              (Demo.form Demo.code1 Demo.verifier)
              (AuthCode.Make Demo.code1 "demo-client" "http://localhost:8080/cb"
                 Demo.challenge "S256" (Demo.t0 + 10 * 60 * 1000000000)))
    as (Hstored & _ & Hresp).
  - reflexivity.
  - reflexivity.
  - reflexivity.
  - vm_compute. reflexivity.
  - vm_compute. discriminate.
  - reflexivity.
  - vm_compute. reflexivity.
  - split; [exact Hstored | exact Hresp].
Defined.

(** C2. An exchange that reaches the code lookup leaves the code store
    without the entry of its code, whatever the answer: the store afterwards
    is the store before with that key deleted.  If the entry was there but
    had expired the answer is [code_expired]; and any further exchange of
    the same code value on the resulting state, with any verifier and any
    client id, is answered [invalid_grant]. *)
Theorem handleToken_consumes_code
    (uuid_New : string) (now1 now2 : Time) (r : Request) (s : Server)
    (form : Values) :
  Method r = "POST" →
  ParseForm r = Some form →
  Get form "grant_type" = "authorization_code" →
  let code := Get form "code" in
  let out := handleToken uuid_New now1 now2 r s in
  codeStore out.1 = delete code (codeStore s)
  ∧ codeStore out.1 !! code = None
  ∧ (∀ authCode,
       codeStore s !! code = Some authCode →
       AuthCode.ExpiresAt authCode < now1 →
       out.2 = jsonError "code_expired" 400)
  ∧ (∀ uuid_New' now1' now2' r' form',
       Method r' = "POST" →
       ParseForm r' = Some form' →
       Get form' "grant_type" = "authorization_code" →
       Get form' "code" = code →
       (handleToken uuid_New' now1' now2' r' out.1).2
       = jsonError "invalid_grant" 400).
Proof.
  intros Hm Hf Hg code out.
  assert (Hstore : codeStore out.1 = delete code (codeStore s)).
  { subst out code. rewrite (handleToken_lookup _ _ _ _ _ _ Hm Hf Hg). simpl.
    destruct (codeStore s !! Get form "code") as [authCode|]; [|done].
    repeat case_bool_decide; try done. by destruct (verifyPKCE _ _). }
  assert (Hgone : codeStore out.1 !! code = None).
  { rewrite Hstore. apply lookup_delete_eq. }
  split_and!; [done | done | |].
  - intros authCode Hsome Hexp. subst out code.
    rewrite (handleToken_lookup _ _ _ _ _ _ Hm Hf Hg). simpl.
    rewrite Hsome. by rewrite bool_decide_eq_true_2.
  - intros uuid_New' now1' now2' r' form' Hm' Hf' Hg' Hcode.
    rewrite (handleToken_lookup _ _ _ _ _ _ Hm' Hf' Hg'). simpl.
    rewrite Hcode. by rewrite Hgone.
Qed.

Lemma handleToken_consumes_code_witness :
  let late := Demo.t0 + 11 * time.Minute in
  let out := handleToken Demo.token1 late late
               (Demo.token Demo.code1 Demo.verifier) Demo.issued in
  out.2 = jsonError "code_expired" 400
  ∧ codeStore out.1 !! Demo.code1 = None
  ∧ (handleToken Demo.token1 (Demo.t0 + 1) (Demo.t0 + 2)
       (Demo.token Demo.code1 Demo.verifier) out.1).2
    = jsonError "invalid_grant" 400.
Proof.
  intros late out.
  destruct (handleToken_consumes_code Demo.token1 late late
              (Demo.token Demo.code1 Demo.verifier) Demo.issued
              (Demo.form Demo.code1 Demo.verifier) eq_refl eq_refl eq_refl)
    as (_ & Hgone & Hexpired & Hagain).
  split_and!.
  - apply (Hexpired (AuthCode.Make Demo.code1 "demo-client"
                       "http://localhost:8080/cb" Demo.challenge "S256"
                       (Demo.t0 + 10 * 60 * 1000000000))).
    + vm_compute. reflexivity.
    + vm_compute. reflexivity.
  - exact Hgone.
  - apply (Hagain Demo.token1 (Demo.t0 + 1) (Demo.t0 + 2)
             (Demo.token Demo.code1 Demo.verifier)
             (Demo.form Demo.code1 Demo.verifier));
      reflexivity.
Defined.

(** ** The protected resource *)

Lemma append_cons (a : Ascii.ascii) (s rest : string) :
  String a s ++ rest = String a (s ++ rest).
Proof. reflexivity. Qed.

Lemma HasPrefix_app (s prefix : string) :
  HasPrefix s prefix = true ↔ ∃ rest, s = prefix ++ rest.
Proof.
  unfold HasPrefix. revert s.
  induction prefix as [|a prefix IH]; intros s; simpl.
  - split; [intros _; by exists s | by destruct s].
  - destruct s as [|b s]; simpl.
    + split; [done | by intros [rest ?]].
    + destruct (Ascii.ascii_dec a b) as [->|Hab].
      * rewrite IH. split; intros [rest Hrest]; exists rest;
          rewrite append_cons in *; congruence.
      * split; [done | intros [rest Hrest]; rewrite append_cons in Hrest; congruence].
Qed.

Lemma substring_all (s : string) : String.substring 0 (String.length s) s = s.
Proof. induction s as [|a s IH]; simpl; [done | by rewrite IH]. Qed.

Lemma TrimPrefix_app (prefix rest : string) :
  TrimPrefix (prefix ++ rest) prefix = rest.
Proof.
  unfold TrimPrefix.
  rewrite (proj2 (HasPrefix_app (prefix ++ rest) prefix)) by (by exists rest).
  induction prefix as [|a prefix IH].
  - change ("" ++ rest) with rest. simpl. rewrite Nat.sub_0_r. apply substring_all.
  - rewrite append_cons. simpl. exact IH.
Qed.

(** C7. [handleUserInfo] never changes the server state.  It serves the
    user claims exactly when the Authorization header reads
    ["Bearer " ++ token] for a [token] that the token store holds with an
    expiry that [now] has not passed; in every other case the answer is a
    401. *)
Theorem handleUserInfo_spec (now : Time) (r : Request) (s : Server) :
  let out := handleUserInfo now r s in
  out.1 = s
  ∧ (out.2 = json_Encode 200 userinfo
     ↔ ∃ token accessToken,
         Get (Header r) "Authorization" = "Bearer " ++ token
         ∧ tokenStore s !! token = Some accessToken
         ∧ (now ≤ AccessToken.ExpiresAt accessToken)%Z)
  ∧ (out.2 ≠ json_Encode 200 userinfo →
     out.2 = http_Error "Unauthorized" 401
     ∨ out.2 = http_Error "Invalid or expired token" 401).
Proof.
  intros out. subst out. unfold handleUserInfo.
  destruct (HasPrefix (Get (Header r) "Authorization") "Bearer ") eqn:Hp; simpl.
  - apply HasPrefix_app in Hp as [token Htok]. rewrite Htok, TrimPrefix_app.
    destruct (tokenStore s !! token) as [accessToken|] eqn:Hlook.
    + unfold time.After. case_bool_decide as Hexp; simpl.
      * split_and!; [done | | by right].
        split; [done|]. intros (token' & at' & Heq & Hlook' & Hle).
        apply (inj (String.append _)) in Heq as ->. simplify_eq. lia.
      * split_and!; [done | | done].
        split; [|done]. intros _. exists token, accessToken.
        split_and!; [done | done | lia].
    + split_and!; [done | | by right].
      split; [done|]. intros (token' & at' & Heq & Hlook' & _).
      apply (inj (String.append _)) in Heq as ->. congruence.
  - split_and!; [done | | by left].
    split; [done|]. intros (token & at' & Heq & _).
    assert (HasPrefix (Get (Header r) "Authorization") "Bearer " = true) as Hp'
      by (apply HasPrefix_app; by exists token).
    congruence.
Qed.

Lemma handleUserInfo_spec_witness :
  (handleUserInfo (Demo.t0 + 5 * time.Second) (Demo.userinfo Demo.token1)
     (server (shared Demo.after_session))).2
  = json_Encode 200 userinfo.
Proof.
  apply (handleUserInfo_spec (Demo.t0 + 5 * time.Second)
           (Demo.userinfo Demo.token1) (server (shared Demo.after_session))).
  exists Demo.token1,
    (AccessToken.Make Demo.token1 "demo-client" (Demo.t0 + 3603 * time.Second)).
  split_and!.
  - reflexivity.
  - vm_compute. reflexivity.
  - vm_compute. discriminate.
Defined.

(** ** Goroutines and handlers

    A goroutine that runs with nobody else in the way computes what the
    handler function computes. *)

Lemma handleAuthorize_alone (uuid_New : string) (now : Time) (e : Env)
    (r : Request) (s : Server) :
  alone [MkEnv uuid_New now; e; MkEnv uuid_New now; e] (au_entry r) (MkShared s false)
  = let out := handleAuthorize uuid_New now r s in
    (Done out.2, MkShared out.1 false).
Proof.
  unfold handleAuthorize. simpl.
  repeat match goal with
  | |- context [if ?b then _ else _] => destruct b; simpl; try done
  end.
Qed.

Lemma handleToken_alone (uuid_New : string) (now1 now2 : Time) (e : Env)
    (r : Request) (s : Server) :
  alone [e; e; e; e; MkEnv uuid_New now1; e; MkEnv uuid_New now2; e]
    (tk_entry r) (MkShared s false)
  = let out := handleToken uuid_New now1 now2 r s in
    (Done out.2, MkShared out.1 false).
Proof.
  unfold handleToken. simpl.
  destruct (negb (Method r =? "POST")%string); simpl; [done|].
  destruct (ParseForm r) as [form|]; simpl; [|done].
  destruct (negb (Get form "grant_type" =? "authorization_code")%string); simpl; [done|].
  destruct (codeStore s !! Get form "code") as [authCode|]; simpl; [|done].
  repeat match goal with
  | |- context [if ?b then _ else _] => destruct b; simpl; try done
  end.
Qed.

Lemma handleUserInfo_alone (now : Time) (e : Env) (r : Request) (s : Server) :
  alone [e; e; e; MkEnv "" now] (ui_entry r) (MkShared s false)
  = let out := handleUserInfo now r s in
    (Done out.2, MkShared out.1 false).
Proof.
  unfold handleUserInfo. simpl.
  destruct (negb (HasPrefix _ _)); simpl; [done|].
  destruct (tokenStore s !! _) as [accessToken|]; simpl; [|done].
  by destruct (time.After _ _).
Qed.

Lemma handleCallback_alone (e : Env) (r : Request) (s : Server) :
  alone [e] (cb_entry r) (MkShared s false)
  = let out := handleCallback r s in
    (Done out.2, MkShared out.1 false).
Proof. reflexivity. Qed.

(** ** Every token belongs to the registered client *)


Lemma Lock_inv (next g' : Goroutine) (sh sh' : Shared) :
  Lock next sh = Some (g', sh') →
  mu sh = false ∧ g' = next ∧ sh' = MkShared (server sh) true.
Proof. unfold Lock. destruct (mu sh); naive_solver. Qed.

(** A step keeps the stores and the locals of the stepping goroutine
    within the registered client. *)
Lemma step_ok (e : Env) (g g' : Goroutine) (sh sh' : Shared) :
  step e g sh = Some (g', sh') →
  stores_ok (server sh) → locals_ok g →
  stores_ok (server sh') ∧ locals_ok g'.
Proof.
  intros Hstep [Hcodes Htokens] Hg.
  destruct g; simpl in Hstep;
    try (apply Lock_inv in Hstep as (_ & -> & ->); done).
  - (* au_entry *)
    repeat match type of Hstep with
    | context [if ?b then _ else _] => destruct b
    end; by simplify_eq.
  - (* au_store *)
    simplify_eq. split; [|done]. split; [|done]. simpl.
    by apply map_Forall_insert_2.
  - (* au_unlock *) by simplify_eq.
  - (* tk_entry *)
    destruct (negb _); [by simplify_eq|].
    destruct (ParseForm r); [|by simplify_eq].
    destruct (negb _); by simplify_eq.
  - (* tk_read *)
    simplify_eq. split; [done|]. simpl.
    destruct (codeStore _ !! code) as [authCode|] eqn:Hlook; [|done].
    exact (Hcodes _ _ Hlook).
  - (* tk_delete *)
    simplify_eq. split; [|by destruct found]. split; [|done]. simpl.
    by apply map_Forall_delete.
  - (* tk_unlock1 *)
    destruct found as [authCode|]; [|by simplify_eq].
    destruct (time.After _ _); [by simplify_eq|].
    destruct (String.eqb_spec (AuthCode.ClientID authCode) clientID) as [<-|];
      simpl in Hstep; [|by simplify_eq].
    destruct (negb _); by simplify_eq.
  - (* tk_store *)
    simplify_eq. split; [|done]. split; [done|]. simpl.
    by apply map_Forall_insert_2.
  - (* tk_unlock2 *) by simplify_eq.
  - (* ui_entry *) destruct (negb _); by simplify_eq.
  - (* ui_read *) by simplify_eq.
  - (* ui_unlock *)
    destruct found as [accessToken|]; [|by simplify_eq].
    destruct (time.After _ _); by simplify_eq.
  - (* cb_entry *) by simplify_eq.
  - (* Done *) done.
Qed.

(** Only line 168 writes the token store. *)
Lemma step_tokenStore (e : Env) (g g' : Goroutine) (sh sh' : Shared) :
  step e g sh = Some (g', sh') →
  tokenStore (server sh') = tokenStore (server sh)
  ∨ ∃ clientID token,
      g = tk_store clientID token
      ∧ tokenStore (server sh')
        = <[ token := AccessToken.Make token clientID
                        (time.Add (env_now e) (1 * time.Hour)) ]>
            (tokenStore (server sh)).
Proof.
  intros Hstep.
  destruct g; simpl in Hstep;
    try (apply Lock_inv in Hstep as (_ & -> & ->); by left);
    try (right; simplify_eq; by eexists _, _);
    left;
    repeat match type of Hstep with
    | context [if ?b then _ else _] => destruct b
    | context [match ?o with Some _ => _ | None => _ end] => destruct o
    end; by simplify_eq.
Qed.

Lemma route_ok (path : string) (r : Request) : locals_ok (route path r).
Proof.
  unfold route.
  repeat match goal with
  | |- context [if ?b then _ else _] => destruct b
  end; done.
Qed.

Lemma exec_ok (ev : Event) (c c' : Config) :
  exec ev c = Some c' → config_ok c → config_ok c'.
Proof.
  intros Hexec [Hstores Hlocals]. destruct ev as [path r|i e]; simpl in Hexec.
  - simplify_eq. split; [done|]. simpl.
    apply Forall_app. split; [done|]. apply Forall_singleton, route_ok.
  - destruct (goroutines c !! i) as [g|] eqn:Hi; simpl in Hexec; [|done].
    destruct (step e g (shared c)) as [[g' sh']|] eqn:Hstep; simpl in Hexec; [|done].
    simplify_eq.
    destruct (step_ok _ _ _ _ _ Hstep Hstores) as [Hstores' Hg'].
    { eapply Forall_lookup_1; eauto. }
    split; [done|]. simpl. by apply Forall_insert.
Qed.

Lemma run_ok (evs : list Event) (c c' : Config) :
  run evs c = Some c' → config_ok c → config_ok c'.
Proof.
  revert c. induction evs as [|ev evs IH]; intros c Hrun Hc; simpl in Hrun.
  - by simplify_eq.
  - destruct (exec ev c) as [c1|] eqn:Hexec; simpl in Hrun; [|done].
    eapply IH; [done|]. by eapply exec_ok.
Qed.

Lemma boot_ok : config_ok boot.
Proof.
  split; [|by apply Forall_nil].
  split; apply map_Forall_empty.
Qed.

Lemma alone_ok (es : list Env) (g : Goroutine) (sh : Shared) :
  stores_ok (server sh) → locals_ok g →
  stores_ok (server (alone es g sh).2).
Proof.
  revert g sh. induction es as [|e es IH]; intros g sh Hs Hg; simpl; [done|].
  destruct (step e g sh) as [[g' sh']|] eqn:Hstep; [|done].
  destruct (step_ok _ _ _ _ _ Hstep Hs Hg). by apply IH.
Qed.

(** The same holds of the handlers taken as functions. *)
Lemma handlers_keep_stores_ok (uuid_New : string) (now1 now2 : Time)
    (r : Request) (s : Server) :
  stores_ok s →
  stores_ok (handleAuthorize uuid_New now1 r s).1
  ∧ stores_ok (handleToken uuid_New now1 now2 r s).1
  ∧ stores_ok (handleUserInfo now1 r s).1
  ∧ stores_ok (handleCallback r s).1.
Proof.
  intros Hs. pose (e := MkEnv uuid_New now1). split_and!.
  - pose proof (handleAuthorize_alone uuid_New now1 e r s) as H.
    pose proof (alone_ok [MkEnv uuid_New now1; e; MkEnv uuid_New now1; e]
                  (au_entry r) (MkShared s false) Hs I) as Hok.
    by rewrite H in Hok.
  - pose proof (handleToken_alone uuid_New now1 now2 e r s) as H.
    pose proof (alone_ok [e; e; e; e; MkEnv uuid_New now1; e; MkEnv uuid_New now2; e]
                  (tk_entry r) (MkShared s false) Hs I) as Hok.
    by rewrite H in Hok.
  - pose proof (handleUserInfo_alone now1 e r s) as H.
    pose proof (alone_ok [e; e; e; MkEnv "" now1]
                  (ui_entry r) (MkShared s false) Hs I) as Hok.
    by rewrite H in Hok.
  - done.
Qed.

(** C10. In every state the server can reach from start-up, through any
    arrival of requests and any interleaving of the steps of their
    goroutines, every access token in the token store carries the client id
    ["demo-client"]; so does every code in the code store. *)
Theorem tokens_belong_to_registered_client
    (evs : list Event) (c : Config) (token : string) (accessToken : AccessToken.t) :
  run evs boot = Some c →
  tokenStore (server (shared c)) !! token = Some accessToken →
  AccessToken.ClientID accessToken = "demo-client"
  ∧ ∀ code authCode,
      codeStore (server (shared c)) !! code = Some authCode →
      AuthCode.ClientID authCode = "demo-client".
Proof.
  intros Hrun Hlook.
  destruct (run_ok _ _ _ Hrun boot_ok) as [[Hcodes Htokens] _].
  split.
  - exact (Htokens _ _ Hlook).
  - intros code authCode Hcode. exact (Hcodes _ _ Hcode).
Qed.

Lemma tokens_belong_to_registered_client_witness :
  AccessToken.ClientID
    (AccessToken.Make Demo.token1 "demo-client" (Demo.t0 + 3603 * time.Second))
  = "demo-client".
Proof.
  apply (tokens_belong_to_registered_client Demo.session Demo.after_session
           Demo.token1).
  - vm_compute. reflexivity.
  - vm_compute. reflexivity.
Defined.

(** ** Exchanges racing for one code *)

Section Count.
Context {A : Type} (P : A → bool).

Lemma count_insert (l : list A) (i : nat) (x y : A) :
  l !! i = Some x →
  (count P (<[ i := y ]> l) + (if P x then 1 else 0)
   = count P l + (if P y then 1 else 0))%nat.
Proof.
  revert i. induction l as [|a l IH]; intros [|i] Hi; simpl in *; try done.
  - simplify_eq. lia.
  - specialize (IH i Hi). lia.
Qed.

Lemma count_app (l1 l2 : list A) :
  count P (l1 ++ l2) = (count P l1 + count P l2)%nat.
Proof. induction l1 as [|a l1 IH]; simpl; [done | rewrite IH; lia]. Qed.

Lemma count_lookup (l : list A) (i : nat) (x : A) :
  l !! i = Some x → P x = true → (1 ≤ count P l)%nat.
Proof.
  revert i. induction l as [|a l IH]; intros [|i] Hi Hx; simpl in *; try done.
  - simplify_eq. rewrite Hx. lia.
  - specialize (IH i Hi Hx). lia.
Qed.

Lemma count_unique (l : list A) (i j : nat) (x y : A) :
  (count P l ≤ 1)%nat →
  l !! i = Some x → l !! j = Some y → P x = true → P y = true → i = j.
Proof.
  revert i j. induction l as [|a l IH]; intros [|i] [|j] Hc Hi Hj Hx Hy;
    simpl in *; try done.
  - simplify_eq. rewrite Hx in Hc. pose proof (count_lookup _ _ _ Hj Hy). lia.
  - simplify_eq. rewrite Hy in Hc. pose proof (count_lookup _ _ _ Hi Hx). lia.
  - f_equal. apply IH; try done. lia.
Qed.

Lemma count_exists (l : list A) :
  (1 ≤ count P l)%nat → ∃ i x, l !! i = Some x ∧ P x = true.
Proof.
  induction l as [|a l IH]; simpl; [lia|]. intros Hc.
  destruct (P a) eqn:Ha.
  - by exists 0%nat, a.
  - destruct IH as (i & x & Hi & Hx); [lia|]. by exists (S i), x.
Qed.

Lemma count_none (l : list A) :
  Forall (λ x, P x = false) l → count P l = 0%nat.
Proof. induction 1 as [|a l Ha _ IH]; simpl; [done | by rewrite Ha, IH]. Qed.
End Count.

Lemma lookup_update {A : Type} (l : list A) (i j : nat) (x y : A) :
  <[ i := x ]> l !! j = Some y →
  (j = i ∧ y = x) ∨ (j ≠ i ∧ l !! j = Some y).
Proof.
  intros H. destruct (decide (j = i)) as [->|Hne].
  - left. split; [done|].
    destruct (decide (i < length l)%nat).
    + rewrite list_lookup_insert_eq in H by done. by simplify_eq.
    + rewrite list_insert_ge in H by lia.
      apply lookup_lt_Some in H. lia.
  - right. split; [done|]. by rewrite list_lookup_insert_ne in H.
Qed.

Lemma jsonError_inj (e1 e2 : string) (s1 s2 : Z) :
  jsonError e1 s1 = jsonError e2 s2 → e1 = e2 ∧ s1 = s2.
Proof.
  unfold jsonError. intros H.
  pose proof (f_equal (λ resp, match resp with
                               | json_Encode _ v => v !! "error"
                               | _ => None
                               end) H) as Hv.
  pose proof (f_equal (λ resp, match resp with
                               | json_Encode status _ => status
                               | _ => 0
                               end) H) as Hs.
  cbv beta iota in Hv, Hs. rewrite !lookup_singleton_eq in Hv. by simplify_eq.
Qed.

(** the three ways a step deals with the mutex: it acquires it, it
    releases it, or it leaves it alone *)
Lemma step_mutex (e : Env) (g g' : Goroutine) (sh sh' : Shared) :
  step e g sh = Some (g', sh') →
  (holding g = false ∧ holding g' = true ∧ mu sh = false ∧ mu sh' = true)
  ∨ (holding g = true ∧ holding g' = false ∧ mu sh' = false)
  ∨ (holding g' = holding g ∧ mu sh' = mu sh).
Proof.
  intros Hstep.
  destruct g; simpl in Hstep;
    try (apply Lock_inv in Hstep as (? & -> & ->); by left);
    repeat match type of Hstep with
    | context [if ?b then _ else _] => destruct b
    | context [match ?o with Some _ => _ | None => _ end] => destruct o
    end; simplify_eq; simpl; auto.
Qed.

Lemma exec_mutex (ev : Event) (c c' : Config) :
  exec ev c = Some c' → mutex_ok c → mutex_ok c'.
Proof.
  unfold mutex_ok. intros Hexec Hc. destruct ev as [path r|i e]; simpl in Hexec.
  - simplify_eq. simpl. rewrite count_app, Hc. simpl.
    assert (holding (route path r) = false) as ->; [|lia].
    unfold route.
    repeat match goal with
    | |- context [if ?b then _ else _] => destruct b
    end; done.
  - destruct (goroutines c !! i) as [g|] eqn:Hi; simpl in Hexec; [|done].
    destruct (step e g (shared c)) as [[g' sh']|] eqn:Hstep; simpl in Hexec; [|done].
    simplify_eq. simpl.
    pose proof (count_insert holding _ _ _ g' Hi) as Hcount.
    pose proof (count_lookup holding _ _ _ Hi) as Hpos.
    destruct (step_mutex _ _ _ _ _ Hstep)
      as [(Hg & Hg' & Hmu & Hmu')|[(Hg & Hg' & Hmu')|(Hg' & Hmu')]];
      rewrite ?Hg, ?Hg', ?Hmu' in *.
    + rewrite Hmu in Hc. lia.
    + specialize (Hpos eq_refl). destruct (mu (shared c)); lia.
    + destruct (holding g); lia.
Qed.

(** What a step of a racing goroutine does to the code store: line 141
    deletes the entry of [code]; every other step leaves the store alone and
    keeps the goroutine on its side of line 141. *)
Lemma step_race (code : string) (e : Env) (g g' : Goroutine) (sh sh' : Shared) :
  racing code g →
  step e g sh = Some (g', sh') →
  racing code g'
  ∧ ((∃ verifier clientID found,
        g = tk_delete code verifier clientID found
        ∧ g' = tk_unlock1 verifier clientID found
        ∧ codeStore (server sh') = delete code (codeStore (server sh)))
     ∨ (early g' = early g
        ∧ present g' = present g
        ∧ codeStore (server sh') = codeStore (server sh)
        ∧ ∀ c0 verifier clientID found,
            g' = tk_delete c0 verifier clientID found →
            found = codeStore (server sh) !! code)).
Proof.
  intros Hg Hstep.
  destruct g; simpl in Hg; try done; simpl in Hstep;
    try (apply Lock_inv in Hstep as (? & -> & ->); split; [done|]; right; done).
  - (* tk_entry *)
    destruct Hg as (Hm & form & Hf & Hgrant & Hcode).
    rewrite Hm, Hf, Hgrant in Hstep. simpl in Hstep. simplify_eq.
    split; [done|]. right. done.
  - (* tk_read *)
    simplify_eq. split; [done|]. right. split_and!; try done.
    intros ???? Heq. by simplify_eq.
  - (* tk_delete *)
    simplify_eq. split; [done|]. left. by eexists _, _, _.
  - (* tk_unlock1 *)
    destruct found as [authCode|].
    + repeat match type of Hstep with
      | context [if ?b then _ else _] => destruct b
      end; simplify_eq; (split; [done|]); right; simpl; split_and!; try done;
        symmetry; apply bool_decide_eq_true_2;
        intros Heq; apply jsonError_inj in Heq as [? _]; done.
    + simplify_eq. split; [done|]. right. simpl. split_and!; done.
  - (* tk_store *)
    simplify_eq. split; [done|]. right. done.
  - (* tk_unlock2 *)
    simplify_eq. split; [done|]. right. simpl. split_and!; done.
Qed.

Lemma mutex_at_most_one (c : Config) :
  mutex_ok c → (count holding (goroutines c) ≤ 1)%nat.
Proof. unfold mutex_ok. intros ->. destruct (mu (shared c)); lia. Qed.

(** The invariant of the race is kept by every step of every racer. *)
Lemma exec_race (code : string) (i : nat) (e : Env) (c c' : Config) :
  exec (Run i e) c = Some c' → race_inv code c → race_inv code c'.
Proof.
  intros Hexec Hinv. pose proof (exec_mutex _ _ _ Hexec (race_mutex _ _ Hinv)) as Hmutex.
  simpl in Hexec.
  destruct (goroutines c !! i) as [g|] eqn:Hi; simpl in Hexec; [|done].
  destruct (step e g (shared c)) as [[g' sh']|] eqn:Hstep; simpl in Hexec; [|done].
  simplify_eq.
  destruct Hinv as [Hracing Hmu Hread Hone Hgone].
  assert (racing code g) as Hg by (eapply Forall_lookup_1; eauto).
  destruct (step_race _ _ _ _ _ _ Hg Hstep) as [Hg' Hcases].
  pose proof (count_insert present _ _ _ g' Hi) as Hcount.
  split; simpl.
  - by apply Forall_insert.
  - done.
  - intros j c0 verifier clientID found Hj.
    apply lookup_update in Hj as [[-> Heq]|[Hne Hj]].
    + destruct Hcases as [(? & ? & ? & _ & -> & _)|(_ & _ & -> & Hfound)]; [done|].
      by eapply Hfound.
    + destruct Hcases as [(? & ? & ? & -> & _ & _)|(_ & _ & -> & _)].
      * exfalso. apply Hne.
        by eapply (count_unique holding _ _ _ _ _ (mutex_at_most_one _ Hmu) Hj Hi).
      * by eapply Hread.
  - destruct Hcases as [(verifier & clientID & found & -> & -> & ->)
                       |(_ & Hp & -> & _)].
    + rewrite lookup_delete_eq. specialize (Hread _ _ _ _ _ Hi). subst found.
      simpl in Hcount. destruct (codeStore _ !! code); lia.
    + rewrite Hp in Hcount. destruct (present g); lia.
  - intros j gj Hj Hearly.
    destruct Hcases as [(_ & _ & _ & _ & _ & ->)|(He & _ & -> & _)].
    + apply lookup_delete_eq.
    + apply lookup_update in Hj as [[-> ->]|[_ Hj]].
      * rewrite He in Hearly. by eapply Hgone.
      * by eapply Hgone.
Qed.

Lemma run_race (code : string) (sched : list (nat * Env)) (c c' : Config) :
  run (interleaving sched) c = Some c' →
  race_inv code c →
  race_inv code c' ∧ length (goroutines c') = length (goroutines c).
Proof.
  revert c. induction sched as [|[i e] sched IH]; intros c Hrun Hinv;
    simpl in Hrun.
  - by simplify_eq.
  - destruct (goroutines c !! i) as [g|] eqn:Hi; simpl in Hrun; [|done].
    destruct (step e g (shared c)) as [[g' sh']|] eqn:Hstep; simpl in Hrun; [|done].
    destruct (IH _ Hrun) as [Hinv' Hlen].
    + eapply (exec_race code i e c); [|done]. simpl. by rewrite Hi; simpl; rewrite Hstep.
    + split; [done|]. rewrite Hlen. simpl. apply length_insert.
Qed.

(** The start of the race: the entry is in the store, the mutex is free and
    every goroutine is at the entry of [handleToken]. *)
Lemma race_start (code : string) (authCode : AuthCode.t) (s : Server)
    (rs : list Request) :
  codeStore s !! code = Some authCode →
  Forall (exchanges code) rs →
  race_inv code (MkConfig (MkShared s false) (tk_entry <$> rs)).
Proof.
  intros Hcode Hrs. split; simpl.
  - by apply Forall_fmap.
  - unfold mutex_ok. simpl. apply count_none, Forall_fmap, Forall_true. done.
  - intros i ???? Hi. apply list_lookup_fmap_Some in Hi as (r & Heq & _). done.
  - rewrite Hcode, count_none; [done|]. apply Forall_fmap, Forall_true. done.
  - intros i g Hi Hearly.
    apply list_lookup_fmap_Some in Hi as (r & -> & _). done.
Qed.

(** Line 144: the goroutine answers [invalid_grant] exactly when its lookup
    found nothing. *)
Lemma unlock1_answer (e : Env) (verifier clientID : string)
    (found : option AuthCode.t) (sh sh' : Shared) (g' : Goroutine) :
  step e (tk_unlock1 verifier clientID found) sh = Some (g', sh') →
  found = None ↔ g' = Done (jsonError "invalid_grant" 400).
Proof.
  intros Hstep. simpl in Hstep.
  destruct found as [authCode|].
  - split; [done|]. intros ->.
    repeat match type of Hstep with
    | context [if ?b then _ else _] => destruct b
    end; simplify_eq;
      match goal with H : Done _ = Done _ |- _ =>
        injection H as H; apply jsonError_inj in H as [? _]; done
      end.
  - split; [|done]. intros _. by simplify_eq.
Qed.

(** While the race is on, at most one goroutine has the entry in hand. *)
Lemma race_at_most_one (code : string) (c : Config) (i j : nat) (gi gj : Goroutine) :
  race_inv code c →
  goroutines c !! i = Some gi → goroutines c !! j = Some gj →
  present gi = true → present gj = true → i = j.
Proof.
  intros Hinv. apply count_unique. pose proof (race_one _ _ Hinv). lia.
Qed.

(** C8. Let the code store hold an entry for [code], and let any number of
    token requests for [code], at least one, be served at once, their
    goroutines interleaved in any way that brings them all to completion.
    Then exactly one of them found the entry at line 140, the one whose
    answer is not [invalid_grant]; each of the others found nothing and
    answered [invalid_grant]. *)
Theorem exactly_one_exchange_finds_the_code
    (code : string) (authCode : AuthCode.t) (s : Server) (rs : list Request)
    (sched : list (nat * Env)) (c : Config) :
  codeStore s !! code = Some authCode →
  rs ≠ [] →
  Forall (exchanges code) rs →
  run (interleaving sched) (MkConfig (MkShared s false) (tk_entry <$> rs)) = Some c →
  Forall (λ g, is_Some (returned g)) (goroutines c) →
  ∃ i resp,
    goroutines c !! i = Some (Done resp)
    ∧ resp ≠ jsonError "invalid_grant" 400
    ∧ (∀ j, j ≠ i → (j < length rs)%nat →
         goroutines c !! j = Some (Done (jsonError "invalid_grant" 400)))
    ∧ codeStore (server (shared c)) !! code = None.
Proof.
  intros Hcode Hne Hrs Hrun Hdone.
  destruct (run_race code _ _ _ Hrun (race_start _ _ _ _ Hcode Hrs)) as [Hinv Hlen].
  simpl in Hlen. rewrite length_fmap in Hlen.
  assert (Hret : ∀ j g, goroutines c !! j = Some g → ∃ resp, g = Done resp).
  { intros j g Hj. pose proof (Forall_lookup_1 _ _ _ _ Hdone Hj) as [resp Hresp].
    destruct g; simpl in Hresp; try done. by eexists. }
  assert (Hgone : codeStore (server (shared c)) !! code = None).
  { destruct rs as [|r rs]; [done|].
    destruct (lookup_lt_is_Some_2 (goroutines c) 0) as [g Hg]; [simpl in Hlen; lia|].
    destruct (Hret _ _ Hg) as [resp ->]. by eapply (race_gone _ _ Hinv). }
  pose proof (race_one _ _ Hinv) as Hone. rewrite Hgone in Hone.
  destruct (count_exists present (goroutines c)) as (i & gi & Hi & Hpi); [lia|].
  destruct (Hret _ _ Hi) as [resp ->].
  exists i, resp. split_and!; [done | | | done].
  - simpl in Hpi. by apply bool_decide_eq_true_1 in Hpi.
  - intros j Hji Hj.
    destruct (lookup_lt_is_Some_2 (goroutines c) j) as [gj Hgj]; [lia|].
    destruct (Hret _ _ Hgj) as [respj ->].
    destruct (decide (respj = jsonError "invalid_grant" 400)) as [->|Hother]; [done|].
    exfalso. apply Hji.
    eapply (race_at_most_one code c j i); [done | done | done | | done].
    simpl. by apply bool_decide_eq_true_2.
Qed.

Lemma exactly_one_exchange_finds_the_code_witness :
  ∃ i resp,
    goroutines Demo.after_race !! i = Some (Done resp)
    ∧ resp ≠ jsonError "invalid_grant" 400
    ∧ (∀ j, j ≠ i → (j < 3)%nat →
         goroutines Demo.after_race !! j = Some (Done (jsonError "invalid_grant" 400)))
    ∧ codeStore (server (shared Demo.after_race)) !! Demo.code1 = None.
Proof.
  apply (exactly_one_exchange_finds_the_code Demo.code1
           (AuthCode.Make Demo.code1 "demo-client" "http://localhost:8080/cb"
              Demo.challenge "S256" (Demo.t0 + 10 * 60 * 1000000000))
           Demo.issued Demo.racers Demo.race Demo.after_race).
  - vm_compute. reflexivity.
  - discriminate.
  - repeat constructor; eexists; repeat split; reflexivity.
  - vm_compute. reflexivity.
  - vm_compute. repeat constructor; eexists; reflexivity.
Defined.

(** ** No deadlock, no endless run

    Every step brings a goroutine closer to its return; a goroutine that
    holds [mu] can always step, and so can any goroutine when [mu] is free.
    Hence every configuration in which the mutex is used properly can be
    scheduled to the point where all handlers have returned. *)

Lemma step_remaining (e : Env) (g g' : Goroutine) (sh sh' : Shared) :
  step e g sh = Some (g', sh') → (remaining g' < remaining g)%nat.
Proof.
  intros Hstep.
  destruct g; simpl in Hstep;
    try (apply Lock_inv in Hstep as (? & -> & ->); simpl; lia);
    repeat match type of Hstep with
    | context [if ?b then _ else _] => destruct b
    | context [match ?o with Some _ => _ | None => _ end] => destruct o
    end; simplify_eq; simpl; lia.
Qed.

Lemma step_free (e : Env) (g : Goroutine) (sh : Shared) :
  mu sh = false → returned g = None → is_Some (step e g sh).
Proof.
  intros Hmu Hg.
  destruct g; simpl in *; unfold Lock; rewrite ?Hmu; try done;
    repeat match goal with
    | |- context [if ?b then _ else _] => destruct b
    | |- context [match ?o with Some _ => _ | None => _ end] => destruct o
    end; done.
Qed.

Lemma step_holder (e : Env) (g : Goroutine) (sh : Shared) :
  holding g = true → is_Some (step e g sh).
Proof.
  intros Hg.
  destruct g; simpl in *; try done;
    repeat match goal with
    | |- context [if ?b then _ else _] => destruct b
    | |- context [match ?o with Some _ => _ | None => _ end] => destruct o
    end; done.
Qed.

Lemma sum_insert {A : Type} (f : A → nat) (l : list A) (i : nat) (x y : A) :
  l !! i = Some x →
  (sum_list_with f (<[ i := y ]> l) + f x = sum_list_with f l + f y)%nat.
Proof.
  revert i. induction l as [|a l IH]; intros [|i] Hi; simpl in *; try done.
  - simplify_eq. lia.
  - specialize (IH i Hi). lia.
Qed.

(** Some goroutine can step as long as one has not returned. *)
Lemma progress (e : Env) (c : Config) :
  mutex_ok c →
  ¬ Forall (λ g, is_Some (returned g)) (goroutines c) →
  ∃ i g g' sh',
    goroutines c !! i = Some g
    ∧ step e g (shared c) = Some (g', sh').
Proof.
  intros Hmutex Hnot.
  apply not_Forall_Exists in Hnot; [|apply _].
  apply Exists_exists in Hnot as (g & Hin & Hg).
  apply list_elem_of_lookup in Hin as [i Hi].
  destruct (mu (shared c)) eqn:Hmu.
  - destruct (count_exists holding (goroutines c)) as (j & gj & Hj & Hhold).
    { unfold mutex_ok in Hmutex. rewrite Hmutex, Hmu. lia. }
    destruct (step_holder e gj (shared c) Hhold) as [[g' sh'] Hstep].
    by exists j, gj, g', sh'.
  - destruct (step_free e g (shared c) Hmu) as [[g' sh'] Hstep].
    { destruct (returned g) eqn:Hr; [|done]. exfalso. apply Hg. by eexists. }
    by exists i, g, g', sh'.
Qed.

(** Every step of a schedule uses up one of the steps the goroutines have
    left. *)
Lemma run_remaining (sched : list (nat * Env)) (c c' : Config) :
  run (interleaving sched) c = Some c' →
  (sum_list_with remaining (goroutines c') + length sched
   ≤ sum_list_with remaining (goroutines c))%nat.
Proof.
  revert c. induction sched as [|[i e] sched IH]; intros c Hrun; simpl in Hrun.
  - simplify_eq. simpl. lia.
  - destruct (goroutines c !! i) as [g|] eqn:Hi; simpl in Hrun; [|done].
    destruct (step e g (shared c)) as [[g' sh']|] eqn:Hstep; simpl in Hrun; [|done].
    specialize (IH _ Hrun). simpl in IH.
    pose proof (step_remaining _ _ _ _ _ Hstep).
    pose proof (sum_insert remaining _ _ _ g' Hi).
    simpl. lia.
Qed.

Lemma completes_within (n : nat) (c : Config) :
  (sum_list_with remaining (goroutines c) ≤ n)%nat →
  mutex_ok c →
  ∃ sched c',
    run (interleaving sched) c = Some c'
    ∧ Forall (λ g, is_Some (returned g)) (goroutines c')
    ∧ (length sched ≤ n)%nat.
Proof.
  revert c. induction n as [|n IH]; intros c Hn Hmutex;
    (destruct (decide (Forall (λ g, is_Some (returned g)) (goroutines c)))
      as [Hall|Hnot]; [exists [], c; split_and!; [done | done | simpl; lia]|]);
    destruct (progress (MkEnv "" 0) c Hmutex Hnot) as (i & g & g' & sh' & Hi & Hstep);
    pose proof (step_remaining _ _ _ _ _ Hstep) as Hless;
    pose proof (sum_insert remaining _ _ _ g' Hi) as Hsum.
  - pose proof (sum_list_with_in _ remaining _ (proj2 (list_elem_of_lookup _ _) (ex_intro _ i Hi))).
    lia.
  - assert (Hexec : exec (Run i (MkEnv "" 0)) c
                    = Some (MkConfig sh' (<[ i := g' ]> (goroutines c)))).
    { simpl. rewrite Hi. simpl. by rewrite Hstep. }
    destruct (IH (MkConfig sh' (<[ i := g' ]> (goroutines c))))
      as (sched & c' & Hrun & Hall & Hlen).
    + simpl. lia.
    + by eapply exec_mutex.
    + exists ((i, MkEnv "" 0) :: sched), c'. split_and!; [|done|simpl; lia].
      change (exec (Run i (MkEnv "" 0)) c ≫= run (interleaving sched) = Some c').
      rewrite Hexec. exact Hrun.
Qed.

Lemma run_mutex (evs : list Event) (c c' : Config) :
  run evs c = Some c' → mutex_ok c → mutex_ok c'.
Proof.
  revert c. induction evs as [|ev evs IH]; intros c Hrun Hc; simpl in Hrun.
  - by simplify_eq.
  - destruct (exec ev c) as [c1|] eqn:Hexec; simpl in Hrun; [|done].
    eapply IH; [done|]. by eapply exec_mutex.
Qed.

Lemma remaining_bound (gs : list Goroutine) :
  (sum_list_with remaining gs ≤ 8 * length gs)%nat.
Proof.
  induction gs as [|g gs IH]; simpl; [lia|].
  assert (remaining g ≤ 8)%nat by (destruct g; simpl; lia). lia.
Qed.

(** X10. No run of the handlers is endless and none gets stuck.  From any
    state the server reaches, and with no further request arriving, every
    sequence of steps, whichever goroutines take them and whatever they read
    from the clock and from [uuid.New()], has at most eight steps for each
    goroutine; as long as some handler has not returned, some goroutine can
    take a step, whatever it reads; so a run that cannot be continued has
    brought every handler to its return. *)
Theorem every_run_completes (evs : list Event) (c : Config) :
  run evs boot = Some c →
  (∀ sched c',
     run (interleaving sched) c = Some c' →
     (length sched ≤ 8 * length (goroutines c))%nat)
  ∧ (¬ Forall (λ g, is_Some (returned g)) (goroutines c) →
     ∀ e, ∃ i c', exec (Run i e) c = Some c')
  ∧ (∀ sched c',
       run (interleaving sched) c = Some c' →
       (∀ i e, exec (Run i e) c' = None) →
       Forall (λ g, is_Some (returned g)) (goroutines c')).
Proof.
  intros Hrun.
  assert (mutex_ok c) as Hmutex by (by eapply run_mutex).
  assert (Hstep : ∀ c0 e,
            mutex_ok c0 →
            ¬ Forall (λ g, is_Some (returned g)) (goroutines c0) →
            ∃ i c', exec (Run i e) c0 = Some c').
  { intros c0 e Hc0 Hnot.
    destruct (progress e c0 Hc0 Hnot) as (i & g & g' & sh' & Hi & Hs).
    exists i, (MkConfig sh' (<[ i := g' ]> (goroutines c0))).
    simpl. rewrite Hi. simpl. by rewrite Hs. }
  split_and!.
  - intros sched c' Hsched.
    pose proof (run_remaining _ _ _ Hsched).
    pose proof (remaining_bound (goroutines c)). lia.
  - intros Hnot e. by apply Hstep.
  - intros sched c' Hsched Hstuck.
    destruct (decide (Forall (λ g, is_Some (returned g)) (goroutines c')))
      as [Hall|Hnot]; [done|].
    destruct (Hstep c' (MkEnv "" 0)) as (i & c'' & Hexec); [|done|].
    + by eapply run_mutex.
    + by rewrite Hstuck in Hexec.
Qed.

(** In particular every race of C8 has interleavings that bring all the
    racers to their return. *)
Lemma race_completes (s : Server) (rs : list Request) :
  ∃ sched c,
    run (interleaving sched) (MkConfig (MkShared s false) (tk_entry <$> rs)) = Some c
    ∧ Forall (λ g, is_Some (returned g)) (goroutines c).
Proof.
  destruct (completes_within
              (sum_list_with remaining (tk_entry <$> rs))
              (MkConfig (MkShared s false) (tk_entry <$> rs)))
    as (sched & c & Hrun & Hall & _); [done | | by exists sched, c].
  unfold mutex_ok. simpl. apply count_none, Forall_fmap, Forall_true. done.
Qed.

(** * Further properties *)

(** ** The encoding of the digest *)

Lemma lor_add_low (x b n : Z) :
  (0 ≤ n)%Z → x `mod` 2 ^ n = 0 → 0 ≤ b < 2 ^ n → Z.lor x b = x + b.
Proof.
  intros Hn Hx Hb. symmetry. apply Z.add_nocarry_lor.
  apply Z.bits_inj'. intros i Hi. rewrite Z.land_spec, Z.bits_0.
  destruct (Z.lt_ge_cases i n) as [Hlt|Hge].
  - rewrite <- (Z.mod_pow2_bits_low x n i) by lia. by rewrite Hx, Z.bits_0.
  - destruct (decide (b = 0)) as [->|]; [by rewrite Z.bits_0, andb_false_r|].
    rewrite (Z.bits_above_log2 b i), andb_false_r; [done | lia |].
    apply Z.log2_lt_pow2; [lia|].
    apply Z.lt_le_trans with (2 ^ n); [lia|]. apply Z.pow_le_mono_r; lia.
Qed.

(** a group of three bytes as the 24-bit number the encoder cuts up *)
Lemma group3_value (b0 b1 b2 : Z) :
  is_byte b0 → is_byte b1 → is_byte b2 →
  Z.lor (Z.lor (Z.shiftl b0 16) (Z.shiftl b1 8)) b2 = b0 * 65536 + b1 * 256 + b2.
Proof.
  unfold is_byte. intros H0 H1 H2. rewrite !Z.shiftl_mul_pow2 by lia.
  rewrite (lor_add_low (b0 * 2 ^ 16) (b1 * 2 ^ 8) 16); [| lia | | lia].
  - rewrite (lor_add_low _ b2 8); [lia | lia | | lia].
    replace (b0 * 2 ^ 16 + b1 * 2 ^ 8) with ((b0 * 2 ^ 8 + b1) * 2 ^ 8) by lia.
    apply Z.mod_mul. lia.
  - apply Z.mod_mul. lia.
Qed.

Lemma group2_value (b0 b1 : Z) :
  is_byte b0 → is_byte b1 →
  Z.lor (Z.shiftl b0 16) (Z.shiftl b1 8) = b0 * 65536 + b1 * 256.
Proof.
  unfold is_byte. intros H0 H1. rewrite !Z.shiftl_mul_pow2 by lia.
  rewrite (lor_add_low (b0 * 2 ^ 16) (b1 * 2 ^ 8) 16); [lia | lia | | lia].
  apply Z.mod_mul. lia.
Qed.

(** the character written for a six-bit value names that value *)
Lemma position_sextet (val k : Z) :
  (0 ≤ k)%Z →
  position (base64.sextet val k) base64.encodeURL
  = Some (Z.to_nat ((val `div` 2 ^ k) `mod` 64)).
Proof.
  intros Hk. unfold base64.sextet.
  change 63 with (Z.ones 6). rewrite Z.land_ones, Z.shiftr_div_pow2 by lia.
  change (2 ^ 6) with 64.
  pose proof (Z.mod_pos_bound (val `div` 2 ^ k) 64 eq_refl) as Hb.
  set (n := Z.to_nat ((val `div` 2 ^ k) `mod` 64)).
  assert (n < 64)%nat as Hn by (subst n; lia).
  clearbody n. clear Hb.
  do 64 (destruct n as [|n]; [vm_compute; reflexivity|]). lia.
Qed.

Lemma sextet_inj (val val' k : Z) :
  (0 ≤ k)%Z →
  base64.sextet val k = base64.sextet val' k →
  (val `div` 2 ^ k) `mod` 64 = (val' `div` 2 ^ k) `mod` 64.
Proof.
  intros Hk Heq.
  pose proof (position_sextet val k Hk) as H1.
  pose proof (position_sextet val' k Hk) as H2.
  rewrite Heq, H2 in H1. simplify_eq.
  pose proof (Z.mod_pos_bound (val `div` 2 ^ k) 64 eq_refl).
  pose proof (Z.mod_pos_bound (val' `div` 2 ^ k) 64 eq_refl).
  lia.
Qed.

Lemma sextet_urlsafe' (val k : Z) : (0 ≤ k)%Z → urlsafe (base64.sextet val k).
Proof. intros Hk. unfold urlsafe. rewrite position_sextet by done. by eexists. Qed.

Lemma group3_inj (b0 b1 b2 c0 c1 c2 : Z) :
  is_byte b0 → is_byte b1 → is_byte b2 →
  is_byte c0 → is_byte c1 → is_byte c2 →
  let v := Z.lor (Z.lor (Z.shiftl b0 16) (Z.shiftl b1 8)) b2 in
  let w := Z.lor (Z.lor (Z.shiftl c0 16) (Z.shiftl c1 8)) c2 in
  base64.sextet v 18 = base64.sextet w 18 →
  base64.sextet v 12 = base64.sextet w 12 →
  base64.sextet v 6 = base64.sextet w 6 →
  base64.sextet v 0 = base64.sextet w 0 →
  b0 = c0 ∧ b1 = c1 ∧ b2 = c2.
Proof.
  intros Hb0 Hb1 Hb2 Hc0 Hc1 Hc2 v w H18 H12 H6 H0. subst v w.
  rewrite (group3_value b0 b1 b2), (group3_value c0 c1 c2) in * by done.
  apply sextet_inj in H18, H12, H6, H0; try lia.
  unfold is_byte in *.
  change (2 ^ 18) with 262144 in H18. change (2 ^ 12) with 4096 in H12.
  change (2 ^ 6) with 64 in H6. change (2 ^ 0) with 1 in H0.
  Z.div_mod_to_equations. lia.
Qed.

Lemma group2_inj (b0 b1 c0 c1 : Z) :
  is_byte b0 → is_byte b1 → is_byte c0 → is_byte c1 →
  let v := Z.lor (Z.shiftl b0 16) (Z.shiftl b1 8) in
  let w := Z.lor (Z.shiftl c0 16) (Z.shiftl c1 8) in
  base64.sextet v 18 = base64.sextet w 18 →
  base64.sextet v 12 = base64.sextet w 12 →
  base64.sextet v 6 = base64.sextet w 6 →
  b0 = c0 ∧ b1 = c1.
Proof.
  intros Hb0 Hb1 Hc0 Hc1 v w H18 H12 H6. subst v w.
  rewrite (group2_value b0 b1), (group2_value c0 c1) in * by done.
  apply sextet_inj in H18, H12, H6; try lia.
  unfold is_byte in *.
  change (2 ^ 18) with 262144 in H18. change (2 ^ 12) with 4096 in H12.
  change (2 ^ 6) with 64 in H6.
  Z.div_mod_to_equations. lia.
Qed.

Lemma group1_inj (b0 c0 : Z) :
  is_byte b0 → is_byte c0 →
  base64.sextet (Z.shiftl b0 16) 18 = base64.sextet (Z.shiftl c0 16) 18 →
  base64.sextet (Z.shiftl b0 16) 12 = base64.sextet (Z.shiftl c0 16) 12 →
  b0 = c0.
Proof.
  intros Hb0 Hc0 H18 H12. rewrite !Z.shiftl_mul_pow2 in * by lia.
  apply sextet_inj in H18, H12; try lia.
  unfold is_byte in *.
  change (2 ^ 18) with 262144 in H18. change (2 ^ 12) with 4096 in H12.
  change (2 ^ 16) with 65536 in *.
  Z.div_mod_to_equations. lia.
Qed.

Lemma encode_inj (a b : list Z) :
  Forall is_byte a → Forall is_byte b →
  base64.RawURLEncoding_EncodeToString a = base64.RawURLEncoding_EncodeToString b →
  a = b.
Proof.
  revert a b. fix IH 1.
  intros [|a0 [|a1 [|a2 a]]] [|b0 [|b1 [|b2 b]]] Ha Hb Heq;
    simpl in Heq; try done; simplify_eq;
    repeat match goal with
    | H : Forall _ (_ :: _) |- _ => apply Forall_cons in H as [? H]
    end.
  - f_equal. by apply group1_inj.
  - destruct (group2_inj a0 a1 b0 b1) as [-> ->]; done.
  - destruct (group3_inj a0 a1 a2 b0 b1 b2) as (-> & -> & ->); try done.
    do 3 f_equal. by apply IH.
Qed.

(** X2. Two byte strings have the same encoding only if they are the same:
    nothing of the digest is lost in the challenge.  The encoding of [n]
    bytes has [(4n + 2) / 3] characters, four for three bytes and no
    padding. *)
Theorem EncodeToString_inj (a b : list Z) :
  Forall is_byte a → Forall is_byte b →
  (base64.RawURLEncoding_EncodeToString a = base64.RawURLEncoding_EncodeToString b
   ↔ a = b)
  ∧ String.length (base64.RawURLEncoding_EncodeToString a)
    = ((length a * 4 + 2) / 3)%nat.
Proof.
  intros Ha Hb. split.
  - split.
    + by apply encode_inj.
    + by intros ->.
  - apply EncodeToString_length.
Qed.

Lemma EncodeToString_inj_witness :
  (base64.RawURLEncoding_EncodeToString (bytes_of_string "foobar")
   = base64.RawURLEncoding_EncodeToString (bytes_of_string "foobaz")
   ↔ bytes_of_string "foobar" = bytes_of_string "foobaz")
  ∧ String.length (base64.RawURLEncoding_EncodeToString (bytes_of_string "foobar"))
    = 8%nat.
Proof.
  apply (EncodeToString_inj (bytes_of_string "foobar") (bytes_of_string "foobaz")).
  - vm_compute. repeat constructor; discriminate.
  - vm_compute. repeat constructor; discriminate.
Defined.

(** Every character the encoder writes is one of the 64 of the URL-safe
    alphabet; the padding character [=] is not among them. *)
Lemma EncodeToString_urlsafe (src : list Z) :
  Forall urlsafe
    (String.list_ascii_of_string (base64.RawURLEncoding_EncodeToString src)).
Proof.
  revert src. fix IH 1.
  intros [|b0 [|b1 [|b2 rest]]]; simpl.
  - constructor.
  - repeat constructor; by apply sextet_urlsafe'.
  - repeat constructor; by apply sextet_urlsafe'.
  - repeat (constructor; [by apply sextet_urlsafe'|]). apply IH.
Qed.

Lemma be_bytes_bytes (n : nat) (x : Z) : Forall is_byte (sha256.be_bytes n x).
Proof.
  induction n as [|n IH]; simpl; constructor; [|done].
  unfold is_byte. change 255 with (Z.ones 8). rewrite Z.land_ones by lia.
  apply Z.mod_pos_bound. done.
Qed.

Lemma Sum256_bytes (data : list Z) : Forall is_byte (sha256.Sum256 data).
Proof.
  unfold sha256.Sum256. cbv zeta.
  apply Forall_join, Forall_fmap, Forall_true. intros h. apply be_bytes_bytes.
Qed.

(** X1. [verifyPKCE] accepts a challenge only if it is 43 characters of the
    URL-safe alphabet. *)
Theorem verifyPKCE_challenge_shape (challenge verifier : string) :
  verifyPKCE challenge verifier = true →
  String.length challenge = 43%nat
  ∧ Forall urlsafe (String.list_ascii_of_string challenge).
Proof.
  unfold verifyPKCE. cbv zeta. intros H. apply String.eqb_eq in H as <-.
  split.
  - by rewrite EncodeToString_length, Sum256_length.
  - apply EncodeToString_urlsafe.
Qed.

Lemma verifyPKCE_challenge_shape_witness :
  String.length Demo.challenge = 43%nat
  ∧ Forall urlsafe (String.list_ascii_of_string Demo.challenge).
Proof.
  apply (verifyPKCE_challenge_shape Demo.challenge Demo.verifier).
  vm_compute. reflexivity.
Defined.

(** X3. Once a challenge accepts one verifier, it accepts exactly the verifiers
    that have the same SHA-256 digest: a second accepted verifier is a
    collision or the same bytes. *)
Theorem verifyPKCE_same_digest (challenge verifier verifier' : string) :
  verifyPKCE challenge verifier = true →
  verifyPKCE challenge verifier' = true
  ↔ sha256.Sum256 (bytes_of_string verifier')
    = sha256.Sum256 (bytes_of_string verifier).
Proof.
  unfold verifyPKCE. cbv zeta. intros H. apply String.eqb_eq in H as <-.
  rewrite String.eqb_eq. split.
  - apply encode_inj; apply Sum256_bytes.
  - by intros ->.
Qed.

Lemma verifyPKCE_same_digest_witness :
  verifyPKCE Demo.challenge "not-the-verifier" = true
  ↔ sha256.Sum256 (bytes_of_string "not-the-verifier")
    = sha256.Sum256 (bytes_of_string Demo.verifier).
Proof.
  apply (verifyPKCE_same_digest Demo.challenge Demo.verifier "not-the-verifier").
  vm_compute. reflexivity.
Defined.

(** ** What the token endpoint does not do *)

Lemma json_Encode_status (s1 s2 : Z) (v1 v2 : gmap string JSON) :
  json_Encode s1 v1 = json_Encode s2 v2 → s1 = s2.
Proof.
  intros H.
  exact (f_equal (λ resp, match resp with
                          | json_Encode status _ => status
                          | _ => 0
                          end) H).
Qed.

Lemma json_Encode_body (s1 s2 : Z) (v1 v2 : gmap string JSON) :
  json_Encode s1 v1 = json_Encode s2 v2 → v1 = v2.
Proof.
  intros H.
  exact (f_equal (λ resp, match resp with
                          | json_Encode _ v => v
                          | _ => ∅
                          end) H).
Qed.

(** X4. A 200 from [handleToken] is the token response, and it is given only to
    a POST whose form parses, asks for the [authorization_code] grant and
    names a stored code that has not expired, was issued to the client id of
    the request, and whose challenge the request's verifier hashes to. *)
Theorem handleToken_token_only_if
    (uuid_New : string) (now1 now2 : Time) (r : Request) (s : Server)
    (body : gmap string JSON) :
  (handleToken uuid_New now1 now2 r s).2 = json_Encode 200 body →
  ∃ form authCode,
    Method r = "POST"
    ∧ ParseForm r = Some form
    ∧ Get form "grant_type" = "authorization_code"
    ∧ codeStore s !! Get form "code" = Some authCode
    ∧ (now1 ≤ AuthCode.ExpiresAt authCode)%Z
    ∧ AuthCode.ClientID authCode = Get form "client_id"
    ∧ verifyPKCE (AuthCode.CodeChallenge authCode) (Get form "code_verifier") = true
    ∧ body = {[ "access_token" := JString uuid_New;
                "token_type" := JString "Bearer";
                "expires_in" := JNumber 3600 ]}.
Proof.
  unfold handleToken.
  destruct (String.eqb_spec (Method r) "POST") as [Hm|]; simpl; [|done].
  destruct (ParseForm r) as [form|]; [|done].
  destruct (String.eqb_spec (Get form "grant_type") "authorization_code") as [Hg|];
    simpl; [|by intros ?%json_Encode_status].
  destruct (codeStore s !! Get form "code") as [authCode|] eqn:Hlook;
    [|by intros ?%json_Encode_status].
  unfold time.After. case_bool_decide as Hexp; [by intros ?%json_Encode_status|].
  destruct (String.eqb_spec (AuthCode.ClientID authCode) (Get form "client_id"))
    as [Hc|]; simpl; [|by intros ?%json_Encode_status].
  destruct (verifyPKCE _ _) eqn:Hpkce; simpl; [|by intros ?%json_Encode_status].
  intros Hbody%json_Encode_body.
  exists form, authCode. split_and!; try done. lia.
Qed.

Lemma handleToken_token_only_if_witness :
  ∃ form authCode,
    Method (Demo.token Demo.code1 Demo.verifier) = "POST"
    ∧ ParseForm (Demo.token Demo.code1 Demo.verifier) = Some form
    ∧ Get form "grant_type" = "authorization_code"
    ∧ codeStore Demo.issued !! Get form "code" = Some authCode
    ∧ (Demo.t0 + 1 ≤ AuthCode.ExpiresAt authCode)%Z
    ∧ AuthCode.ClientID authCode = Get form "client_id"
    ∧ verifyPKCE (AuthCode.CodeChallenge authCode) (Get form "code_verifier") = true
    ∧ ({[ "access_token" := JString Demo.token1;
          "token_type" := JString "Bearer";
          "expires_in" := JNumber 3600 ]} : gmap string JSON)
      = {[ "access_token" := JString Demo.token1;
           "token_type" := JString "Bearer";
           "expires_in" := JNumber 3600 ]}.
Proof.
  apply (handleToken_token_only_if Demo.token1 (Demo.t0 + 1) (Demo.t0 + 2)
           (Demo.token Demo.code1 Demo.verifier) Demo.issued).
  vm_compute. reflexivity.
Defined.

(** X5. [handleToken] adds no code and removes none but the one its request
    names; it leaves every token but the one it draws as it was, and the
    whole token store as it was unless it answers 200. *)
Theorem handleToken_frame
    (uuid_New : string) (now1 now2 : Time) (r : Request) (s : Server) :
  let out := handleToken uuid_New now1 now2 r s in
  codeStore out.1 ⊆ codeStore s
  ∧ (∀ k, codeStore out.1 !! k = codeStore s !! k
          ∨ ∃ form, ParseForm r = Some form ∧ Get form "code" = k)
  ∧ (∀ k, k ≠ uuid_New → tokenStore out.1 !! k = tokenStore s !! k)
  ∧ ((∀ body, out.2 ≠ json_Encode 200 body) → tokenStore out.1 = tokenStore s).
Proof.
  intros out. subst out. unfold handleToken.
  destruct (negb (Method r =? "POST")%string); simpl; [by split_and!; auto|].
  destruct (ParseForm r) as [form|]; simpl; [|by split_and!; auto].
  destruct (negb (Get form "grant_type" =? "authorization_code")%string); simpl;
    [by split_and!; auto|].
  assert (Hframe : ∀ k, delete (Get form "code") (codeStore s) !! k = codeStore s !! k
                        ∨ ∃ form0, Some form = Some form0 ∧ Get form0 "code" = k).
  { intros k. destruct (decide (Get form "code" = k)) as [<-|Hne].
    - right. by exists form.
    - left. by rewrite lookup_delete_ne. }
  destruct (codeStore s !! Get form "code") as [authCode|]; simpl;
    repeat match goal with
    | |- context [if ?b then _ else _] => destruct b; simpl
    end;
    (split_and!; [apply delete_subseteq | done | try done | try done]).
  - intros k Hk. by rewrite lookup_insert_ne.
  - intros Hno. by destruct (Hno _ eq_refl).
Qed.

(** ** From authorization to the protected resource *)

Lemma handleAuthorize_stored
    (uuid_New : string) (now : Time) (r : Request) (s : Server) :
  let q := Query r in
  Get q "client_id" = ClientID →
  Get q "redirect_uri" = RedirectURI →
  Get q "response_type" = "code" →
  Get q "code_challenge" ≠ "" →
  Get q "code_challenge_method" = "S256" →
  codeStore (handleAuthorize uuid_New now r s).1 !! uuid_New
  = Some (AuthCode.Make uuid_New ClientID RedirectURI (Get q "code_challenge")
            "S256" (time.Add now (10 * time.Minute)))
  ∧ tokenStore (handleAuthorize uuid_New now r s).1 = tokenStore s.
Proof.
  intros q Hc Hr Ht Hch Hm. subst q. unfold handleAuthorize.
  rewrite Hc, Hr, Ht, Hm.
  destruct (String.eqb_spec (Get (Query r) "code_challenge") "") as [|_]; [done|].
  simpl. by rewrite lookup_insert_eq.
Qed.

(** X7. A code issued to a valid authorization request at [t0] is exchanged,
    by a request of the registered client, for a token exactly when the
    exchange comes no later than ten minutes after [t0] and its verifier
    hashes to the challenge of the authorization request; either way the
    code is gone afterwards. *)
Theorem authorize_then_exchange
    (code uuid_New : string) (t0 now1 now2 : Time) (ra rt : Request)
    (form : Values) (s : Server) :
  let q := Query ra in
  Get q "client_id" = ClientID →
  Get q "redirect_uri" = RedirectURI →
  Get q "response_type" = "code" →
  Get q "code_challenge" ≠ "" →
  Get q "code_challenge_method" = "S256" →
  Method rt = "POST" →
  ParseForm rt = Some form →
  Get form "grant_type" = "authorization_code" →
  Get form "code" = code →
  Get form "client_id" = ClientID →
  let out := handleToken uuid_New now1 now2 rt (handleAuthorize code t0 ra s).1 in
  (out.2 = json_Encode 200
             {[ "access_token" := JString uuid_New;
                "token_type" := JString "Bearer";
                "expires_in" := JNumber 3600 ]}
   ↔ (now1 ≤ t0 + 10 * 60 * 1000000000)%Z
     ∧ base64.RawURLEncoding_EncodeToString
         (sha256.Sum256 (bytes_of_string (Get form "code_verifier")))
       = Get q "code_challenge")
  ∧ codeStore out.1 !! code = None.
Proof.
  intros q Hc Hr Ht Hch Hm Hpost Hform Hgrant Hcode Hclient out.
  destruct (handleAuthorize_stored code t0 ra s Hc Hr Ht Hch Hm) as [Hstored _].
  subst out. rewrite (handleToken_lookup _ _ _ _ _ _ Hpost Hform Hgrant).
  rewrite Hcode, Hclient. cbv zeta. rewrite Hstored. simpl.
  fold q. unfold time.Add, verifyPKCE. cbv zeta.
  change (10 * time.Minute) with (10 * 60 * 1000000000).
  repeat case_bool_decide; simpl; try done.
  - split; [|apply lookup_delete_eq].
    split; [by intros ?%json_Encode_status | lia].
  - destruct (String.eqb_spec
                (base64.RawURLEncoding_EncodeToString
                   (sha256.Sum256 (bytes_of_string (Get form "code_verifier"))))
                (Get q "code_challenge")) as [Heq|Hne]; simpl.
    + split; [|apply lookup_delete_eq]. split; [intros _; split; [lia|done] | done].
    + split; [|apply lookup_delete_eq].
      split; [by intros ?%json_Encode_status | by intros [_ ?]].
Qed.

Lemma authorize_then_exchange_witness :
  let out := handleToken Demo.token1 (Demo.t0 + 11 * time.Minute) (Demo.t0 + 11 * time.Minute)
               (Demo.token Demo.code1 Demo.verifier) Demo.issued in
  (out.2 = json_Encode 200
             {[ "access_token" := JString Demo.token1;
                "token_type" := JString "Bearer";
                "expires_in" := JNumber 3600 ]}
   ↔ (Demo.t0 + 11 * time.Minute ≤ Demo.t0 + 10 * 60 * 1000000000)%Z
     ∧ base64.RawURLEncoding_EncodeToString
         (sha256.Sum256 (bytes_of_string Demo.verifier))
       = Demo.challenge)
  ∧ codeStore out.1 !! Demo.code1 = None.
Proof.
  apply (authorize_then_exchange Demo.code1 Demo.token1 Demo.t0
           (Demo.t0 + 11 * time.Minute) (Demo.t0 + 11 * time.Minute)
           Demo.authorize (Demo.token Demo.code1 Demo.verifier)
           (Demo.form Demo.code1 Demo.verifier) initial);
    try reflexivity.
  vm_compute. discriminate.
Defined.

(** X8. A token issued at [now2] opens [/userinfo] exactly until one hour after
    [now2]. *)
Theorem exchange_then_userinfo
    (uuid_New : string) (now1 now2 now : Time) (rt ru : Request) (s : Server)
    (form : Values) (authCode : AuthCode.t) :
  Method rt = "POST" →
  ParseForm rt = Some form →
  Get form "grant_type" = "authorization_code" →
  codeStore s !! Get form "code" = Some authCode →
  (now1 ≤ AuthCode.ExpiresAt authCode)%Z →
  AuthCode.ClientID authCode = Get form "client_id" →
  verifyPKCE (AuthCode.CodeChallenge authCode) (Get form "code_verifier") = true →
  Get (Header ru) "Authorization" = "Bearer " ++ uuid_New →
  (handleUserInfo now ru (handleToken uuid_New now1 now2 rt s).1).2
    = json_Encode 200 userinfo
  ↔ (now ≤ now2 + 3600 * 1000000000)%Z.
Proof.
  intros Hpost Hform Hgrant Hlook Hexp Hclient Hpkce Hauth.
  rewrite (handleToken_lookup _ _ _ _ _ _ Hpost Hform Hgrant). cbv zeta.
  rewrite Hlook, Hpkce.
  rewrite bool_decide_eq_false_2 by lia.
  rewrite bool_decide_eq_false_2 by (intros Hne; by apply Hne).
  unfold handleUserInfo. rewrite Hauth.
  rewrite (proj2 (HasPrefix_app _ _)) by (by eexists).
  rewrite TrimPrefix_app. simpl. rewrite lookup_insert_eq. simpl.
  unfold time.After, time.Add. change (1 * time.Hour) with (3600 * 1000000000).
  case_bool_decide; simpl; split; try done; lia.
Qed.

Lemma exchange_then_userinfo_witness :
  (handleUserInfo (Demo.t0 + 30 * time.Minute) (Demo.userinfo Demo.token1)
     (handleToken Demo.token1 (Demo.t0 + 1) (Demo.t0 + 2)
        (Demo.token Demo.code1 Demo.verifier) Demo.issued).1).2
    = json_Encode 200 userinfo
  ↔ (Demo.t0 + 30 * time.Minute ≤ Demo.t0 + 2 + 3600 * 1000000000)%Z.
Proof.
  apply (exchange_then_userinfo Demo.token1 (Demo.t0 + 1) (Demo.t0 + 2)
           (Demo.t0 + 30 * time.Minute)
           (Demo.token Demo.code1 Demo.verifier) (Demo.userinfo Demo.token1)
           Demo.issued (Demo.form Demo.code1 Demo.verifier)
           (AuthCode.Make Demo.code1 "demo-client" "http://localhost:8080/cb"
              Demo.challenge "S256" (Demo.t0 + 10 * 60 * 1000000000))).
  - reflexivity.
  - reflexivity.
  - reflexivity.
  - vm_compute. reflexivity.
  - vm_compute. discriminate.
  - reflexivity.
  - vm_compute. reflexivity.
  - reflexivity.
Defined.

(** X6. [handleAuthorize] never touches the token store, and of the code store
    at most the entry of the code it draws (an entry already stored under
    that value is replaced); unless it answers with the redirect it changes
    nothing at all. *)
Theorem handleAuthorize_frame
    (uuid_New : string) (now : Time) (r : Request) (s : Server) :
  let out := handleAuthorize uuid_New now r s in
  tokenStore out.1 = tokenStore s
  ∧ (∀ k, k ≠ uuid_New → codeStore out.1 !! k = codeStore s !! k)
  ∧ (codeStore s !! uuid_New = None → codeStore s ⊆ codeStore out.1)
  ∧ ((∀ url, out.2 ≠ http_Redirect url 302) → out.1 = s).
Proof.
  intros out. subst out. unfold handleAuthorize.
  repeat match goal with
  | |- context [if ?b then _ else _] => destruct b; simpl
  end; try (by split_and!).
  split_and!; [done | | |].
  - intros k Hk. by rewrite lookup_insert_ne.
  - intros Hnew. by apply insert_subseteq.
  - intros Hno. by destruct (Hno _ eq_refl).
Qed.

(** ** The mutex *)

Lemma step_write_holding (e : Env) (g g' : Goroutine) (sh sh' : Shared) :
  step e g sh = Some (g', sh') → server sh' ≠ server sh → holding g = true.
Proof.
  intros Hstep Hchanged.
  destruct g; simpl in Hstep; try done;
    try (apply Lock_inv in Hstep as (? & -> & ->); done);
    repeat match type of Hstep with
    | context [if ?b then _ else _] => destruct b
    | context [match ?o with Some _ => _ | None => _ end] => destruct o
    end; by simplify_eq.
Qed.

(** X9. In every state the server reaches, at most one goroutine is between a
    [mu.Lock()] and its [mu.Unlock()], the mutex is held exactly when there
    is one, and a step that changes one of the maps is a step of that
    goroutine. *)
Theorem mutual_exclusion (evs : list Event) (c : Config) :
  run evs boot = Some c →
  (∀ i j gi gj,
     goroutines c !! i = Some gi → goroutines c !! j = Some gj →
     holding gi = true → holding gj = true → i = j)
  ∧ (mu (shared c) = true ↔ ∃ i g, goroutines c !! i = Some g ∧ holding g = true)
  ∧ (∀ i e c',
       exec (Run i e) c = Some c' →
       server (shared c') ≠ server (shared c) →
       ∃ g, goroutines c !! i = Some g ∧ holding g = true).
Proof.
  intros Hrun.
  assert (mutex_ok c) as Hmutex by (by eapply run_mutex).
  split_and!.
  - intros i j gi gj. apply count_unique. by apply mutex_at_most_one.
  - unfold mutex_ok in Hmutex. split.
    + intros Hmu. rewrite Hmu in Hmutex. apply count_exists. lia.
    + intros (i & g & Hi & Hg). pose proof (count_lookup _ _ _ _ Hi Hg).
      destruct (mu (shared c)); [done | lia].
  - intros i e c' Hexec Hchanged. simpl in Hexec.
    destruct (goroutines c !! i) as [g|] eqn:Hi; simpl in Hexec; [|done].
    destruct (step e g (shared c)) as [[g' sh']|] eqn:Hstep; simpl in Hexec; [|done].
    simplify_eq. exists g. split; [done|]. by eapply step_write_holding.
Qed.

Lemma mutual_exclusion_witness :
  mu (shared Later.midway) = true
  ↔ ∃ i g, goroutines Later.midway !! i = Some g ∧ holding g = true.
Proof.
  apply (mutual_exclusion (take 11 Demo.session) Later.midway).
  vm_compute. reflexivity.
Defined.

Lemma every_run_completes_witness :
  (∀ sched c',
     run (interleaving sched) Later.midway = Some c' →
     (length sched ≤ 8 * length (goroutines Later.midway))%nat)
  ∧ (∀ e, ∃ i c', exec (Run i e) Later.midway = Some c').
Proof.
  destruct (every_run_completes (take 11 Demo.session) Later.midway)
    as (Hbound & Hstep & _).
  - vm_compute. reflexivity.
  - split; [exact Hbound|]. apply Hstep.
    intros Hall. vm_compute in Hall.
    apply Forall_cons in Hall as [_ Hall].
    apply Forall_cons in Hall as [[resp Hresp] _]. discriminate Hresp.
Defined.

(** ** What the stores hold *)

Lemma step_wf (e : Env) (g g' : Goroutine) (sh sh' : Shared) :
  step e g sh = Some (g', sh') →
  stores_wf (server sh) → locals_wf g →
  stores_wf (server sh') ∧ locals_wf g'.
Proof.
  intros Hstep [Hcodes Htokens] Hg.
  destruct g; simpl in Hstep;
    try (apply Lock_inv in Hstep as (_ & -> & ->); done).
  - (* au_entry *)
    destruct (negb _); [by simplify_eq|].
    destruct (negb _); [by simplify_eq|].
    destruct (negb _); [by simplify_eq|].
    destruct (String.eqb_spec (Get (Query r) "code_challenge") ""); simpl in Hstep;
      [by simplify_eq|].
    destruct (String.eqb_spec (Get (Query r) "code_challenge_method") "S256");
      simpl in Hstep; by simplify_eq.
  - (* au_store *)
    destruct Hg as [Hch Hm]. simplify_eq. split; [|done]. split; [|done]. simpl.
    by apply map_Forall_insert_2.
  - (* au_unlock *) by simplify_eq.
  - (* tk_entry *)
    destruct (negb _); [by simplify_eq|].
    destruct (ParseForm r); [|by simplify_eq].
    destruct (negb _); by simplify_eq.
  - (* tk_read *) by simplify_eq.
  - (* tk_delete *)
    simplify_eq. split; [|done]. split; [|done]. simpl.
    by apply map_Forall_delete.
  - (* tk_unlock1 *)
    repeat match type of Hstep with
    | context [if ?b then _ else _] => destruct b
    | context [match ?o with Some _ => _ | None => _ end] => destruct o
    end; by simplify_eq.
  - (* tk_store *)
    simplify_eq. split; [|done]. split; [done|]. simpl.
    by apply map_Forall_insert_2.
  - (* tk_unlock2 *) by simplify_eq.
  - (* ui_entry *) destruct (negb _); by simplify_eq.
  - (* ui_read *) by simplify_eq.
  - (* ui_unlock *)
    repeat match type of Hstep with
    | context [if ?b then _ else _] => destruct b
    | context [match ?o with Some _ => _ | None => _ end] => destruct o
    end; by simplify_eq.
  - (* cb_entry *) by simplify_eq.
  - (* Done *) done.
Qed.

Lemma run_wf (evs : list Event) (c c' : Config) :
  run evs c = Some c' →
  stores_wf (server (shared c)) ∧ Forall locals_wf (goroutines c) →
  stores_wf (server (shared c')) ∧ Forall locals_wf (goroutines c').
Proof.
  revert c. induction evs as [|ev evs IH]; intros c Hrun [Hs Hl]; simpl in Hrun.
  - by simplify_eq.
  - destruct (exec ev c) as [c1|] eqn:Hexec; simpl in Hrun; [|done].
    apply (IH _ Hrun). clear IH Hrun.
    destruct ev as [path r|i e]; simpl in Hexec.
    + simplify_eq. split; [done|]. simpl. apply Forall_app. split; [done|].
      apply Forall_singleton. unfold route.
      repeat match goal with
      | |- context [if ?b then _ else _] => destruct b
      end; done.
    + destruct (goroutines c !! i) as [g|] eqn:Hi; simpl in Hexec; [|done].
      destruct (step e g (shared c)) as [[g' sh']|] eqn:Hstep; simpl in Hexec; [|done].
      simplify_eq.
      destruct (step_wf _ _ _ _ _ Hstep Hs) as [Hs' Hg'].
      { eapply Forall_lookup_1; eauto. }
      split; [done|]. simpl. by apply Forall_insert.
Qed.

(** X11. In every state the server reaches, each code in the code store sits
    under its own value and carries the registered redirect URI and a
    non-empty challenge of method [S256], and each token in the token store
    sits under its own value: no code can be exchanged without a PKCE
    check against a real challenge. *)
Theorem stores_well_formed (evs : list Event) (c : Config) :
  run evs boot = Some c →
  (∀ k authCode,
     codeStore (server (shared c)) !! k = Some authCode →
     AuthCode.Code authCode = k
     ∧ AuthCode.RedirectURI authCode = "http://localhost:8080/cb"
     ∧ AuthCode.CodeChallenge authCode ≠ ""
     ∧ AuthCode.CodeChallengeMethod authCode = "S256")
  ∧ (∀ k accessToken,
       tokenStore (server (shared c)) !! k = Some accessToken →
       AccessToken.Token accessToken = k).
Proof.
  intros Hrun.
  destruct (run_wf _ _ _ Hrun) as [[Hcodes Htokens] _].
  { split; [|by apply Forall_nil]. split; apply map_Forall_empty. }
  split.
  - intros k authCode Hk. exact (Hcodes _ _ Hk).
  - intros k accessToken Hk. exact (Htokens _ _ Hk).
Qed.

Lemma stores_well_formed_witness :
  AccessToken.Token
    (AccessToken.Make Demo.token1 "demo-client" (Demo.t0 + 3603 * time.Second))
  = Demo.token1.
Proof.
  destruct (stores_well_formed Demo.session Demo.after_session) as [_ Htokens].
  - vm_compute. reflexivity.
  - apply (Htokens Demo.token1). vm_compute. reflexivity.
Defined.

(** ** What stays in the stores *)

Lemma step_kept (k : string) (e : Env) (g g' : Goroutine) (sh sh' : Shared) :
  step e g sh = Some (g', sh') →
  env_uuid e ≠ k → not_drawn k g →
  not_drawn k g'
  ∧ tokenStore (server sh') !! k = tokenStore (server sh) !! k
  ∧ (codeStore (server sh) !! k = None → codeStore (server sh') !! k = None).
Proof.
  intros Hstep He Hg.
  destruct g; simpl in Hstep, Hg;
    try (apply Lock_inv in Hstep as (_ & -> & ->); done);
    repeat match type of Hstep with
    | context [if ?b then _ else _] => destruct b
    | context [match ?o with Some _ => _ | None => _ end] => destruct o
    end; simplify_eq; simpl; split_and!; try done.
  - intros Hk. by rewrite lookup_insert_ne.
  - intros Hk. destruct (decide (code = k)) as [->|];
      [apply lookup_delete_eq | by rewrite lookup_delete_ne].
  - by rewrite lookup_insert_ne.
Qed.

Lemma step_token_stays (k : string) (e : Env) (g g' : Goroutine) (sh sh' : Shared) :
  step e g sh = Some (g', sh') →
  is_Some (tokenStore (server sh) !! k) → is_Some (tokenStore (server sh') !! k).
Proof.
  intros Hstep Hk.
  destruct (step_tokenStore _ _ _ _ _ Hstep) as [->|(clientID & token & _ & ->)];
    [done|].
  destruct (decide (token = k)) as [->|];
    [rewrite lookup_insert_eq; by eexists | by rewrite lookup_insert_ne].
Qed.

Lemma run_kept (k : string) (evs : list Event) (c c' : Config) :
  run evs c = Some c' →
  Forall (never_draws k) evs →
  Forall (not_drawn k) (goroutines c) →
  tokenStore (server (shared c')) !! k = tokenStore (server (shared c)) !! k
  ∧ (codeStore (server (shared c)) !! k = None →
     codeStore (server (shared c')) !! k = None).
Proof.
  revert c. induction evs as [|ev evs IH]; intros c Hrun Hevs Hgs; simpl in Hrun.
  - by simplify_eq.
  - apply Forall_cons in Hevs as [Hev Hevs].
    destruct (exec ev c) as [c1|] eqn:Hexec; simpl in Hrun; [|done].
    destruct ev as [path r|i e]; simpl in Hexec.
    + simplify_eq. apply (IH _ Hrun Hevs). simpl.
      apply Forall_app. split; [done|]. apply Forall_singleton. unfold route.
      repeat match goal with
      | |- context [if ?b then _ else _] => destruct b
      end; done.
    + destruct (goroutines c !! i) as [g|] eqn:Hi; simpl in Hexec; [|done].
      destruct (step e g (shared c)) as [[g' sh']|] eqn:Hstep; simpl in Hexec; [|done].
      simplify_eq.
      destruct (step_kept k _ _ _ _ _ Hstep Hev) as (Hg' & Htok & Hcode).
      { eapply Forall_lookup_1; eauto. }
      destruct (IH _ Hrun Hevs) as [Htok' Hcode'].
      { simpl. by apply Forall_insert. }
      simpl in *. split; [congruence | auto].
Qed.

(** X12. A token is never removed from the token store; and unless
    [uuid.New()] draws its value again, its entry, expiry included, is never
    changed. *)
Theorem tokens_are_kept (k : string) (evs : list Event) (c c' : Config) :
  run evs c = Some c' →
  (is_Some (tokenStore (server (shared c)) !! k) →
   is_Some (tokenStore (server (shared c')) !! k))
  ∧ (Forall (never_draws k) evs →
     Forall (not_drawn k) (goroutines c) →
     tokenStore (server (shared c')) !! k = tokenStore (server (shared c)) !! k).
Proof.
  intros Hrun. split.
  - revert c Hrun. induction evs as [|ev evs IH]; intros c Hrun Hk; simpl in Hrun.
    + by simplify_eq.
    + destruct (exec ev c) as [c1|] eqn:Hexec; simpl in Hrun; [|done].
      apply (IH _ Hrun). clear IH Hrun.
      destruct ev as [path r|i e]; simpl in Hexec; [by simplify_eq|].
      destruct (goroutines c !! i) as [g|] eqn:Hi; simpl in Hexec; [|done].
      destruct (step e g (shared c)) as [[g' sh']|] eqn:Hstep; simpl in Hexec; [|done].
      simplify_eq. simpl. by eapply step_token_stays.
  - intros Hevs Hgs. by destruct (run_kept k _ _ _ Hrun Hevs Hgs).
Qed.

Lemma tokens_are_kept_witness :
  tokenStore (server (shared Later.state)) !! Demo.token1
  = tokenStore (server (shared Demo.after_session)) !! Demo.token1.
Proof.
  apply (tokens_are_kept Demo.token1 Later.events Demo.after_session Later.state).
  - vm_compute. reflexivity.
  - vm_compute. repeat constructor; discriminate.
  - vm_compute. repeat constructor.
Defined.

(** X13. A code that is not in the code store stays out of it for good, unless
    [uuid.New()] draws its value again: once exchanged, a code cannot be
    brought back by any request. *)
Theorem spent_code_stays_spent (k : string) (evs : list Event) (c c' : Config) :
  run evs c = Some c' →
  codeStore (server (shared c)) !! k = None →
  Forall (never_draws k) evs →
  Forall (not_drawn k) (goroutines c) →
  codeStore (server (shared c')) !! k = None.
Proof.
  intros Hrun Hk Hevs Hgs. by apply (run_kept k _ _ _ Hrun Hevs Hgs).
Qed.

Lemma spent_code_stays_spent_witness :
  codeStore (server (shared Later.state)) !! Demo.code1 = None.
Proof.
  apply (spent_code_stays_spent Demo.code1 Later.events Demo.after_session).
  - vm_compute. reflexivity.
  - vm_compute. reflexivity.
  - vm_compute. repeat constructor; discriminate.
  - vm_compute. repeat constructor.
Defined.

(** ** One code, at most one token *)

Lemma step_race_tokens (code : string) (authCode : AuthCode.t) (e : Env)
    (g g' : Goroutine) (sh sh' : Shared) :
  racing code g →
  step e g sh = Some (g', sh') →
  (∀ found, codeStore (server sh) !! code = Some found → found = authCode) →
  race_local authCode g →
  race_local authCode g'
  ∧ (∀ found, codeStore (server sh') !! code = Some found → found = authCode)
  ∧ ((∃ clientID token,
        g = tk_store clientID token
        ∧ present g' = true ∧ past_store g' = true
        ∧ tokenStore (server sh')
          = <[ token := AccessToken.Make token clientID
                          (time.Add (env_now e) (1 * time.Hour)) ]>
              (tokenStore (server sh)))
     ∨ (tokenStore (server sh') = tokenStore (server sh)
        ∧ (present g = true → past_store g = true →
           present g' = true ∧ past_store g' = true))).
Proof.
  intros Hg Hstep Hcode Hlocal.
  destruct g; simpl in Hg; try done; simpl in Hstep;
    try (apply Lock_inv in Hstep as (? & -> & ->); split_and!; [done | done |];
         right; done).
  - (* tk_entry *)
    destruct Hg as (Hm & form & Hf & Hgrant & Hc).
    rewrite Hm, Hf, Hgrant in Hstep. simpl in Hstep. simplify_eq.
    split_and!; [done | done |]. by right.
  - (* tk_read *)
    simplify_eq. split_and!; [| done | by right]. simpl.
    destruct (codeStore _ !! code) as [found|] eqn:Hfound; [|done].
    by apply Hcode.
  - (* tk_delete *)
    simplify_eq. split_and!; [done | | by right].
    simpl. intros found'. by rewrite lookup_delete_eq.
  - (* tk_unlock1 *)
    destruct found as [found'|]; [|simplify_eq; split_and!; [done | done | by right]].
    simpl in Hlocal. subst found'.
    destruct (time.After _ _);
      [simplify_eq; split_and!; [done | done | by right]|].
    destruct (String.eqb_spec (AuthCode.ClientID authCode) clientID) as [<-|];
      simpl in Hstep; [|simplify_eq; split_and!; [done | done | by right]].
    destruct (negb _); simplify_eq; split_and!; try done; by right.
  - (* tk_store *)
    simplify_eq. split_and!; [done | done |]. left. by eexists _, _.
  - (* tk_unlock2 *)
    simplify_eq. split_and!; [done | done |]. right. done.
Qed.

Lemma exec_race_tokens (code : string) (authCode : AuthCode.t)
    (tokens : gmap string AccessToken.t) (i : nat) (e : Env) (c c' : Config) :
  exec (Run i e) c = Some c' →
  race_inv code c →
  race_tokens code authCode tokens c →
  race_tokens code authCode tokens c'.
Proof.
  intros Hexec Hinv (Hcode & Hlocals & Htokens). simpl in Hexec.
  destruct (goroutines c !! i) as [g|] eqn:Hi; simpl in Hexec; [|done].
  destruct (step e g (shared c)) as [[g' sh']|] eqn:Hstep; simpl in Hexec; [|done].
  simplify_eq.
  assert (racing code g) as Hg
    by (eapply Forall_lookup_1; [apply (race_racing _ _ Hinv) | done]).
  assert (race_local authCode g) as Hl by (eapply Forall_lookup_1; eauto).
  destruct (step_race_tokens _ _ _ _ _ _ _ Hg Hstep Hcode Hl)
    as (Hl' & Hcode' & Hcases).
  split_and!; simpl; [done | by apply Forall_insert |].
  destruct Hcases as [(clientID & token & -> & Hp' & Hs' & ->)|[-> Hkeeps]].
  - right. destruct Htokens as [->|[_ (j & gj & Hj & Hpj & Hsj)]].
    + split.
      * simpl in Hl. subst clientID. by eexists _, _.
      * exists i, g'. split_and!; [|done|done].
        apply list_lookup_insert_eq. by eapply lookup_lt_Some.
    + assert (j = i) as -> by (by eapply (race_at_most_one code c j i)).
      by simplify_eq.
  - destruct Htokens as [Hsame|[Hone (j & gj & Hj & Hpj & Hsj)]]; [by left|].
    right. split; [done|].
    destruct (decide (j = i)) as [->|Hne].
    + simplify_eq. destruct (Hkeeps Hpj Hsj) as [Hp' Hs'].
      exists i, g'. split_and!; [|done|done].
      apply list_lookup_insert_eq. by eapply lookup_lt_Some.
    + exists j, gj. split_and!; [|done|done]. by rewrite list_lookup_insert_ne.
Qed.

(** X14. However many exchanges of one stored code run at once, and however
    their steps interleave, at no moment have they added more than one
    token to the token store; that token sits under its own value and
    carries the client id the code was issued to. *)
Theorem race_issues_at_most_one_token
    (code : string) (authCode : AuthCode.t) (s : Server) (rs : list Request)
    (sched : list (nat * Env)) (c : Config) :
  codeStore s !! code = Some authCode →
  Forall (exchanges code) rs →
  run (interleaving sched) (MkConfig (MkShared s false) (tk_entry <$> rs)) = Some c →
  tokenStore (server (shared c)) = tokenStore s
  ∨ ∃ token expiresAt,
      tokenStore (server (shared c))
      = <[ token := AccessToken.Make token (AuthCode.ClientID authCode) expiresAt ]>
          (tokenStore s).
Proof.
  intros Hcode Hrs Hrun.
  assert (race_inv code c ∧ race_tokens code authCode (tokenStore s) c)
    as [_ (_ & _ & [Hsame|[Hone _]])]; [|by left|by right].
  pose proof (race_start _ _ _ _ Hcode Hrs) as Hinv.
  assert (race_tokens code authCode (tokenStore s)
            (MkConfig (MkShared s false) (tk_entry <$> rs))) as Htok.
  { split_and!; simpl.
    - intros found Hfound. congruence.
    - apply Forall_fmap, Forall_true. done.
    - by left. }
  revert Hrun Hinv Htok. generalize (MkConfig (MkShared s false) (tk_entry <$> rs)).
  induction sched as [|[i e] sched IH]; intros c0 Hrun Hinv Htok; simpl in Hrun.
  - by simplify_eq.
  - destruct (goroutines c0 !! i) as [g|] eqn:Hi; simpl in Hrun; [|done].
    destruct (step e g (shared c0)) as [[g' sh']|] eqn:Hstep; simpl in Hrun; [|done].
    assert (exec (Run i e) c0 = Some (MkConfig sh' (<[ i := g' ]> (goroutines c0))))
      as Hexec by (simpl; rewrite Hi; simpl; by rewrite Hstep).
    apply (IH _ Hrun).
    + by eapply exec_race.
    + by eapply exec_race_tokens.
Qed.

Lemma race_issues_at_most_one_token_witness :
  tokenStore (server (shared Demo.after_race)) = tokenStore Demo.issued
  ∨ ∃ token expiresAt,
      tokenStore (server (shared Demo.after_race))
      = <[ token := AccessToken.Make token "demo-client" expiresAt ]>
          (tokenStore Demo.issued).
Proof.
  apply (race_issues_at_most_one_token Demo.code1
           (AuthCode.Make Demo.code1 "demo-client" "http://localhost:8080/cb"
              Demo.challenge "S256" (Demo.t0 + 10 * 60 * 1000000000))
           Demo.issued Demo.racers Demo.race Demo.after_race).
  - vm_compute. reflexivity.
  - repeat constructor; eexists; repeat split; reflexivity.
  - vm_compute. reflexivity.
Defined.
